(** * Flyweight elements and the 3x3 maze block

    A shallow embedding of [src/maze/block.cpp] (and of the [Element] /
    [ElementContainer] classes of [src/flyweight/flyweight.cpp], whose text
    is the same) together with the properties stated about them.

    The program works on heap objects reached through raw pointers
    ([Element*], [ElementContainer*]), on the global [std::map] tables
    [side_map] and [reverse_side_map], and on [std::cout].  All of this is
    gathered in a [World]; every C++ function becomes a computation of the
    monad [M], which threads the world and can get stuck on undefined
    behaviour (a dangling pointer, an index outside an array).  A [Block] is
    passed to its member functions and returned by those that assign to it. *)

From Stdlib Require Import ZArith String Ascii Lia.
From stdpp Require Import base option countable gmap list strings.

Local Open Scope Z_scope.
Local Open Scope string_scope.

(** ** Helpers: [Side] and the two coordinate tables *)

Definition BLOCK_SIZE : Z := 3.

(** [enum class Side], enumerators in declaration order (values 0..8). *)
Inductive Side : Set :=
  | NORTH_WEST
  | NORTH
  | NORTH_EAST
  | WEST
  | CENTER
  | EAST
  | SOUTH_WEST
  | SOUTH
  | SOUTH_EAST.

(** The underlying value of an enumerator; [std::map<Side, _>] orders its
    keys by it. *)
Definition Side_value (s : Side) : Z :=
  match s with
  | NORTH_WEST => 0 | NORTH => 1 | NORTH_EAST => 2
  | WEST => 3 | CENTER => 4 | EAST => 5
  | SOUTH_WEST => 6 | SOUTH => 7 | SOUTH_EAST => 8
  end.

Definition Side_of_value (z : Z) : option Side :=
  match z with
  | 0 => Some NORTH_WEST | 1 => Some NORTH | 2 => Some NORTH_EAST
  | 3 => Some WEST | 4 => Some CENTER | 5 => Some EAST
  | 6 => Some SOUTH_WEST | 7 => Some SOUTH | 8 => Some SOUTH_EAST
  | _ => None
  end.

#[global] Instance Side_eq_dec : EqDecision Side.
Proof. solve_decision. Defined.

#[global] Instance Side_countable : Countable Side.
Proof.
  refine (inj_countable Side_value Side_of_value _). by intros [].
Defined.

(** A value-initialised [Side] is the enumerator of value 0. *)
Definition Side_default : Side := NORTH_WEST.

(** [std::array<int, 2>]: a pair of ints; value-initialised, it is {0, 0}. *)
Definition index : Type := (Z * Z)%type.
Definition index_default : index := (0, 0).

(** ** [std::map::operator[]]

    [m[k]] returns the mapped value when [k] is a key of [m]; otherwise it
    first inserts [k] with a value-initialised mapped value and returns
    that.  The map is passed by (non-const) reference, hence the new map in
    the result. *)
Definition map_subscript `{Countable K} {V : Type}
    (dflt : V) (m : gmap K V) (k : K) : V * gmap K V :=
  match m !! k with
  | Some v => (v, m)
  | None => (dflt, <[k := dflt]> m)
  end.

(** The initial contents of the global [side_map]. *)
Definition side_map_init : gmap Side index :=
  <[NORTH := (0, 1)]> (
  <[NORTH_EAST := (0, 2)]> (
  <[EAST := (1, 2)]> (
  <[CENTER := (1, 1)]> (
  <[SOUTH_EAST := (2, 2)]> (
  <[SOUTH := (2, 1)]> (
  <[SOUTH_WEST := (2, 0)]> (
  <[WEST := (1, 0)]> (
  <[NORTH_WEST := (0, 0)]> ∅)))))))).

(** The initial contents of the global [reverse_side_map]. *)
Definition reverse_side_map_init : gmap index Side :=
  <[(0, 1) := NORTH]> (
  <[(0, 2) := NORTH_EAST]> (
  <[(1, 1) := CENTER]> (
  <[(1, 2) := EAST]> (
  <[(2, 2) := SOUTH_EAST]> (
  <[(2, 1) := SOUTH]> (
  <[(2, 0) := SOUTH_WEST]> (
  <[(1, 0) := WEST]> (
  <[(0, 0) := NORTH_WEST]> ∅)))))))).

(** ** Heap objects *)

(** Addresses of heap objects. *)
Definition loc : Type := positive.

(** [class Element]: its only member is the [representations] map. *)
Record Element : Type := mkElement {
  representations : gmap Side string
}.

(** [Element::Element(reprs)]: the argument is copied into the member. *)
Definition Element_ctor (reprs : gmap Side string) : Element :=
  {| representations := reprs |}.

(** [class ElementContainer]: a side and a pointer to a shared element. *)
Record ElementContainer : Type := mkContainer {
  state : Side;
  el_proxy : loc
}.

(** ** The world: globals, heap and standard output *)

Record World : Type := mkWorld {
  side_map : gmap Side index;
  reverse_side_map : gmap index Side;
  elements : gmap loc Element;             (* live [Element] objects *)
  containers : gmap loc ElementContainer;  (* live [ElementContainer]s *)
  cout : string                            (* everything written so far *)
}.

Definition set_side_map (f : gmap Side index) (w : World) : World :=
  {| side_map := f; reverse_side_map := reverse_side_map w;
     elements := elements w; containers := containers w; cout := cout w |}.

Definition set_reverse_side_map (f : gmap index Side) (w : World) : World :=
  {| side_map := side_map w; reverse_side_map := f;
     elements := elements w; containers := containers w; cout := cout w |}.

Definition set_elements (h : gmap loc Element) (w : World) : World :=
  {| side_map := side_map w; reverse_side_map := reverse_side_map w;
     elements := h; containers := containers w; cout := cout w |}.

Definition set_containers (h : gmap loc ElementContainer) (w : World) : World :=
  {| side_map := side_map w; reverse_side_map := reverse_side_map w;
     elements := elements w; containers := h; cout := cout w |}.

Definition set_cout (s : string) (w : World) : World :=
  {| side_map := side_map w; reverse_side_map := reverse_side_map w;
     elements := elements w; containers := containers w; cout := s |}.

(** ** The monad of C++ computations

    [None] stands for undefined behaviour: the source has no exceptions and
    no error returns, so this is the only way a call can fail. *)
Definition M (A : Type) : Type := World -> option (A * World).

Definition ret {A : Type} (a : A) : M A := fun w => Some (a, w).

Definition bind {A B : Type} (m : M A) (f : A -> M B) : M B :=
  fun w => match m w with
           | Some (a, w') => f a w'
           | None => None
           end.

Notation "x <- m ;; k" := (bind m (fun x => k))
  (at level 100, m at next level, right associativity).
Notation "m ;; k" := (bind m (fun _ => k))
  (at level 100, right associativity).

(** Result and final world of a run, when it is defined. *)
Definition eval {A : Type} (m : M A) (w : World) : option A :=
  fst <$> m w.
Definition exec {A : Type} (m : M A) (w : World) : option World :=
  snd <$> m w.

(** [std::cout << s]. *)
Definition cout_put (s : string) : M unit :=
  fun w => Some (tt, set_cout (cout w ++ s) w).

(** [std::endl]: a newline (and a flush, which has no content here). *)
Definition endl : string := String "010"%char EmptyString.

(** ** index_to_side and side_to_index *)

(** [index_to_side(x, y)]: [reverse_side_map[{x, y}]]. *)
Definition index_to_side (x y : Z) : M Side :=
  fun w =>
    let '(s, m) := map_subscript Side_default (reverse_side_map w) (x, y) in
    Some (s, set_reverse_side_map m w).

(** [side_to_index(s)]: [side_map[s]]. *)
Definition side_to_index (s : Side) : M index :=
  fun w =>
    let '(p, m) := map_subscript index_default (side_map w) s in
    Some (p, set_side_map m w).

(** ** Element *)

(** [Element::repr(key)]: [representations[key]] on the element [this]
    points to.  A string is value-initialised to the empty string. *)
Definition Element_repr (this : loc) (key : Side) : M string :=
  fun w =>
    match elements w !! this with
    | None => None
    | Some e =>
        let '(v, m) := map_subscript "" (representations e) key in
        Some (v, set_elements (<[this := {| representations := m |}]> (elements w)) w)
    end.

(** The three representation tables and the global elements built from them. *)
Definition NULL_REPRESENTATIONS : gmap Side string :=
  <[NORTH := ""]> (
  <[NORTH_EAST := ""]> (
  <[EAST := ""]> (
  <[SOUTH_EAST := ""]> (
  <[SOUTH := ""]> (
  <[SOUTH_WEST := ""]> (
  <[WEST := ""]> (
  <[NORTH_WEST := ""]> ∅))))))).

Definition WALL_REPRESENTATIONS : gmap Side string :=
  <[NORTH := "■"]> (
  <[NORTH_EAST := "■"]> (
  <[EAST := "■"]> (
  <[SOUTH_EAST := "■"]> (
  <[SOUTH := "■"]> (
  <[SOUTH_WEST := "■"]> (
  <[WEST := "■"]> (
  <[NORTH_WEST := "■"]> (
  <[CENTER := " "]> ∅)))))))).

Definition FLOOR_REPRESENTATIONS : gmap Side string :=
  <[NORTH := " "]> (
  <[NORTH_EAST := " "]> (
  <[EAST := " "]> (
  <[SOUTH_EAST := " "]> (
  <[SOUTH := " "]> (
  <[SOUTH_WEST := " "]> (
  <[WEST := " "]> (
  <[NORTH_WEST := " "]> (
  <[CENTER := " "]> ∅)))))))).

(** The global pointers [NULL_ELEMENT], [WALL_ELEMENT] and [FLOOR_ELEMENT]
    are initialised once, in this order, and never assigned again. *)
Definition NULL_ELEMENT : loc := 1%positive.
Definition WALL_ELEMENT : loc := 2%positive.
Definition FLOOR_ELEMENT : loc := 3%positive.

(** The world when [main] starts, after static initialisation. *)
Definition initial_world : World :=
  {| side_map := side_map_init;
     reverse_side_map := reverse_side_map_init;
     elements :=
       <[FLOOR_ELEMENT := Element_ctor FLOOR_REPRESENTATIONS]> (
       <[WALL_ELEMENT := Element_ctor WALL_REPRESENTATIONS]> (
       <[NULL_ELEMENT := Element_ctor NULL_REPRESENTATIONS]> ∅));
     containers := ∅;
     cout := "" |}.

(** ** ElementContainer and its named variants *)

(** [new ElementContainer(side, el)]: the constructor calls [setSide(side)]
    and [setElement(el)], which assign the two members; the object lives at
    an address no live container has. *)
Definition new_ElementContainer (side : Side) (el : loc) : M loc :=
  fun w =>
    let this := fresh (dom (containers w)) in
    Some (this,
          set_containers
            (<[this := {| state := side; el_proxy := el |}]> (containers w)) w).

(** Reading through an [ElementContainer*]. *)
Definition container_at (this : loc) : M ElementContainer :=
  fun w => match containers w !! this with
           | Some c => Some (c, w)
           | None => None
           end.

Definition getSide (this : loc) : M Side :=
  c <- container_at this ;; ret (state c).

Definition setSide (this : loc) (side : Side) : M unit :=
  c <- container_at this ;;
  fun w => Some (tt, set_containers
                       (<[this := {| state := side; el_proxy := el_proxy c |}]>
                          (containers w)) w).

Definition setElement (this : loc) (el : loc) : M unit :=
  c <- container_at this ;;
  fun w => Some (tt, set_containers
                       (<[this := {| state := state c; el_proxy := el |}]>
                          (containers w)) w).

(** [ElementContainer::repr()]: [el_proxy->repr(state)]. *)
Definition ElementContainer_repr (this : loc) : M string :=
  c <- container_at this ;; Element_repr (el_proxy c) (state c).

(** [delete p] for an [ElementContainer*]: the object must be live; its
    (trivial) destructor leaves the element alone. *)
Definition delete_container (p : loc) : M unit :=
  _ <- container_at p ;;
  fun w => Some (tt, set_containers (delete p (containers w)) w).

(** The subclasses only fix the default of the [el] argument; [None] stands
    for an omitted argument. *)
Definition new_NullContainer (side : Side) (el : option loc) : M loc :=
  new_ElementContainer side (default NULL_ELEMENT el).

Definition new_WallContainer (side : Side) (el : option loc) : M loc :=
  new_ElementContainer side (default WALL_ELEMENT el).

Definition new_FloorContainer (side : Side) (el : option loc) : M loc :=
  new_ElementContainer side (default FLOOR_ELEMENT el).

(** ** Block *)

(** A C array [A[3]]: indexing outside 0..2 is undefined. *)
Record array3 (A : Type) : Type := mkArray3 { a0 : A; a1 : A; a2 : A }.
Arguments mkArray3 {A} _ _ _.
Arguments a0 {A} _.
Arguments a1 {A} _.
Arguments a2 {A} _.

Definition get3 {A : Type} (a : array3 A) (i : Z) : option A :=
  match i with
  | 0 => Some (a0 a)
  | 1 => Some (a1 a)
  | 2 => Some (a2 a)
  | _ => None
  end.

Definition set3 {A : Type} (a : array3 A) (i : Z) (x : A) : option (array3 A) :=
  match i with
  | 0 => Some (mkArray3 x (a1 a) (a2 a))
  | 1 => Some (mkArray3 (a0 a) x (a2 a))
  | 2 => Some (mkArray3 (a0 a) (a1 a) x)
  | _ => None
  end.

(** The elements in the order a range-based [for] visits them. *)
Definition to_list3 {A : Type} (a : array3 A) : list A := [a0 a; a1 a; a2 a].

(** [class Block]: the grid of container pointers and the position. *)
Record Block : Type := mkBlock {
  grid : array3 (array3 loc);
  pos_x : Z;
  pos_y : Z
}.

(** The value of [grid[x][y]]. *)
Definition cell (b : Block) (x y : Z) : option loc :=
  row ← get3 (grid b) x; get3 row y.

(** The block after [grid[x][y] = p]. *)
Definition cell_assign (b : Block) (x y : Z) (p : loc) : option Block :=
  row ← get3 (grid b) x;
  row' ← set3 row y p;
  g ← set3 (grid b) x row';
  Some {| grid := g; pos_x := pos_x b; pos_y := pos_y b |}.

(** Lifting a partial operation: [None] is undefined behaviour. *)
Definition lift {A : Type} (o : option A) : M A :=
  fun w => match o with Some a => Some (a, w) | None => None end.

(** [for (auto i = lo; i < lo + n; i++) body], threading the object the
    body updates. *)
Fixpoint for_range {St : Type} (n : nat) (lo : Z) (body : Z -> St -> M St)
    (s : St) : M St :=
  match n with
  | O => ret s
  | S n' => s' <- body lo s ;; for_range n' (lo + 1) body s'
  end.

(** [for (auto &item : l) body]. *)
Fixpoint for_each {A : Type} (l : list A) (body : A -> M unit) : M unit :=
  match l with
  | [] => ret tt
  | item :: l' => body item ;; for_each l' body
  end.

(** [Block::Block()], run on storage [raw] whose contents are
    indeterminate: every cell is assigned a fresh [NullContainer] for the
    side of its coordinates; [pos_x] and [pos_y] are not touched. *)
Definition Block_ctor (raw : Block) : M Block :=
  for_range (Z.to_nat BLOCK_SIZE) 0 (fun i b =>
    for_range (Z.to_nat BLOCK_SIZE) 0 (fun j b =>
      mapped_side <- index_to_side i j ;;
      p <- new_NullContainer mapped_side None ;;
      lift (cell_assign b i j p)) b) raw.

(** [Block::getElement(x, y)]. *)
Definition getElement (b : Block) (x y : Z) : M loc :=
  lift (cell b x y).

(** [Block::setContainer(el)]. *)
Definition setContainer (b : Block) (el : loc) : M Block :=
  el_side <- getSide el ;;
  mapped_index <- side_to_index el_side ;;
  let x := fst mapped_index in
  let y := snd mapped_index in
  curr_el <- lift (cell b x y) ;;
  delete_container curr_el ;;
  lift (cell_assign b x y el).

(** [Block::render()]. *)
Definition render (b : Block) : M unit :=
  for_each (to_list3 (grid b)) (fun row =>
    for_each (to_list3 row) (fun item =>
      s <- ElementContainer_repr item ;;
      cout_put s ;;
      cout_put " ") ;;
    cout_put endl).

(** [Block::setPosition(x, y)] and [Block::getPosition()]. *)
Definition setPosition (b : Block) (x y : Z) : Block :=
  {| grid := grid b; pos_x := x; pos_y := y |}.

Definition getPosition (b : Block) : index := (pos_x b, pos_y b).

(** [main] of the maze demo; [raw] is the storage [new Block()] obtains.
    The block is returned so that the final grid can be looked at. *)
Definition main (raw : Block) : M Block :=
  new_block <- Block_ctor raw ;;
  c <- new_WallContainer NORTH_WEST None ;; new_block <- setContainer new_block c ;;
  c <- new_WallContainer NORTH None ;; new_block <- setContainer new_block c ;;
  c <- new_WallContainer NORTH_EAST None ;; new_block <- setContainer new_block c ;;
  c <- new_WallContainer WEST None ;; new_block <- setContainer new_block c ;;
  c <- new_FloorContainer CENTER None ;; new_block <- setContainer new_block c ;;
  c <- new_WallContainer EAST None ;; new_block <- setContainer new_block c ;;
  c <- new_WallContainer SOUTH_WEST None ;; new_block <- setContainer new_block c ;;
  c <- new_WallContainer SOUTH None ;; new_block <- setContainer new_block c ;;
  c <- new_WallContainer SOUTH_EAST None ;; new_block <- setContainer new_block c ;;
  render new_block ;;
  ret new_block.

(** * The flyweight demo

    [src/flyweight/flyweight.cpp] declares [Side] (as an unscoped enum),
    [Element], [NULL_REPRESENTATIONS], [WALL_REPRESENTATIONS], the two
    elements built from them, [ElementContainer], [NullContainer] and
    [WallContainer] with the text of the maze file, so the definitions above
    stand for them.  It has no coordinate tables and no floor element. *)
Module Flyweight.

(** The world when [main] starts. *)
Definition initial_world : World :=
  {| side_map := ∅;
     reverse_side_map := ∅;
     elements :=
       <[WALL_ELEMENT := Element_ctor WALL_REPRESENTATIONS]> (
       <[NULL_ELEMENT := Element_ctor NULL_REPRESENTATIONS]> ∅);
     containers := ∅;
     cout := "" |}.

(** [static_cast<Side>(n)]: the enumerator of value [n]; the model has no
    value of [Side] for an [n] outside 0..8. *)
Definition Side_cast (n : Z) : M Side := lift (Side_of_value n).

(** [main].  Line 179 declares the matrix as [WallContainer[3][3]]; its
    initialiser and the loop over it ([item->repr()]) use it as the 3x3 array
    of [WallContainer*] modelled here. *)
Definition main : M unit :=
  cout_put "Accessing NORTH representations of WALL_ELEMENT." ;;
  cout_put endl ;;
  s <- Element_repr WALL_ELEMENT NORTH ;; cout_put s ;; cout_put endl ;;
  cout_put endl ;;
  cout_put "Accessing all representations of WALL_ELEMENT." ;;
  cout_put endl ;;
  for_range 3 0 (fun i _ =>
    for_range 3 0 (fun j _ =>
      curr_side <- Side_cast (i * 3 + j) ;;
      s <- Element_repr WALL_ELEMENT curr_side ;;
      cout_put s ;;
      cout_put " ") tt ;;
    cout_put endl) tt ;;
  cout_put endl ;;
  wall <- new_WallContainer NORTH None ;;
  cout_put "Accessing NORTH representation of wall via WallContainer" ;;
  cout_put endl ;;
  s <- ElementContainer_repr wall ;; cout_put s ;; cout_put endl ;;
  wall_north_west <- new_WallContainer NORTH_WEST None ;;
  wall_north <- new_WallContainer NORTH None ;;
  wall_north_east <- new_WallContainer NORTH_EAST None ;;
  wall_west <- new_WallContainer WEST None ;;
  wall_center <- new_WallContainer CENTER None ;;
  wall_east <- new_WallContainer EAST None ;;
  wall_south_west <- new_WallContainer SOUTH_WEST None ;;
  wall_south <- new_WallContainer SOUTH None ;;
  wall_south_east <- new_WallContainer SOUTH_EAST None ;;
  let wall_matrix :=
    mkArray3 (mkArray3 wall_north_west wall_north wall_north_east)
             (mkArray3 wall_west wall_center wall_east)
             (mkArray3 wall_south_west wall_south wall_south_east) in
  cout_put "Creating matrix using WallContainer's" ;;
  cout_put endl ;;
  for_each (to_list3 wall_matrix) (fun row =>
    for_each (to_list3 row) (fun item =>
      s <- ElementContainer_repr item ;;
      cout_put s ;;
      cout_put " ") ;;
    cout_put endl).



End Flyweight.

(** * Vocabulary of the properties *)

(** ** The coordinate tables as functions *)

Definition side_index (s : Side) : index :=
  default index_default (side_map_init !! s).

Definition index_side (p : index) : Side :=
  default Side_default (reverse_side_map_init !! p).

(** The coordinates of the grid. *)
Definition in_block (r c : Z) : Prop :=
  (0 ≤ r < BLOCK_SIZE) ∧ (0 ≤ c < BLOCK_SIZE).

(** What every run keeps true of the tables: [side_map] is never extended
    (all nine sides are keys), [reverse_side_map] only by keys it lacks. *)
Definition tables_ok (w : World) : Prop :=
  side_map w = side_map_init ∧ reverse_side_map_init ⊆ reverse_side_map w.

(** ** Glyphs *)

(** The glyph a wall shows on a side, and the one a floor shows. *)
Definition wall_glyph (s : Side) : string :=
  if decide (s = CENTER) then " " else "■".

Definition floor_glyph (s : Side) : string := " ".

(** The glyph the element at [l] has for [key], read without touching
    the element: its entry, or the empty string when it has none. *)
Definition elem_glyph (w : World) (l : loc) (key : Side) : option string :=
  e ← elements w !! l; Some (default "" (representations e !! key)).

(** The glyph the container at [p] shows. *)
Definition glyph (w : World) (p : loc) : option string :=
  k ← containers w !! p; elem_glyph w (el_proxy k) (state k).

(** Worlds that differ at most in entries [operator[]] added to elements,
    and in what was printed. *)
Definition repr_equiv (w w' : World) : Prop :=
  side_map w' = side_map w
  ∧ reverse_side_map w' = reverse_side_map w
  ∧ containers w' = containers w
  ∧ ∀ (l : loc) (key : Side), elem_glyph w' l key = elem_glyph w l key.

(** The element [NULL_ELEMENT] points to shows the empty string on every
    side, whether the side has an entry or not. *)
Definition null_element_blank (w : World) : Prop :=
  ∀ s : Side, elem_glyph w NULL_ELEMENT s = Some "".

(** The wall and floor elements are as constructed. *)
Definition tiles_intact (w : World) : Prop :=
  elements w !! WALL_ELEMENT = Some (Element_ctor WALL_REPRESENTATIONS)
  ∧ elements w !! FLOOR_ELEMENT = Some (Element_ctor FLOOR_REPRESENTATIONS).

(** ** Printed text *)

(** [prints m text]: [m] is defined exactly where [text] is, appends that
    text to the output, and otherwise changes the world only up to
    [repr_equiv]; the text does not depend on such changes. *)
Definition prints (m : M unit) (text : World → option string) : Prop :=
  (∀ w : World,
     match m w with
     | Some (_, w') =>
         ∃ out : string,
           text w = Some out ∧ cout w' = cout w ++ out ∧ repr_equiv w w'
     | None => text w = None
     end)
  ∧ (∀ w w' : World, repr_equiv w w' → text w' = text w).

Definition seq_text (t1 t2 : World → option string) (w : World)
    : option string :=
  a ← t1 w; b ← t2 w; Some (a ++ b).

Definition each_text {A : Type} (l : list A)
    (t : A → World → option string) : World → option string :=
  foldr (λ x acc, seq_text (t x) acc) (λ _, Some "") l.

(** What one cell contributes: its glyph and a space. *)
Definition cell_text (p : loc) (w : World) : option string :=
  s ← glyph w p; seq_text (λ _, Some s) (λ _, Some " ") w.

(** The text [render] writes for a block. *)
Definition row_text (row : array3 loc) : World → option string :=
  seq_text (each_text (to_list3 row) cell_text) (λ _, Some endl).

Definition render_text (b : Block) : World → option string :=
  each_text (to_list3 (grid b)) row_text.

(** The text of a grid whose cell [(r, c)] shows [g r c]: every glyph is
    followed by a space, every row by a newline. *)
Definition row_string (g : Z → Z → string) (r : Z) : string :=
  ((g r 0 ++ " ") ++ (g r 1 ++ " ") ++ (g r 2 ++ " ") ++ "") ++ endl.

Definition grid_string (g : Z → Z → string) : string :=
  row_string g 0 ++ row_string g 1 ++ row_string g 2 ++ "".

(** The lines of a text: the pieces its newlines end (and what follows the
    last newline, if anything). *)
Fixpoint lines (s : string) : list string :=
  match s with
  | EmptyString => []
  | String ch s' =>
      if Ascii.eqb ch "010"%char then "" :: lines s'
      else match lines s' with
           | [] => [String ch ""]
           | l :: ls => String ch l :: ls
           end
  end.

(** ** Cells and their occupants *)

(** The occupant of a cell is a live container. *)
Definition occupant_live (w : World) (b : Block) (r c : Z) : Prop :=
  ∃ (p : loc) (k : ElementContainer),
    cell b r c = Some p ∧ containers w !! p = Some k.

(** The cell at [(r, c)] holds a live container for the side of [(r, c)]
    bound to [NULL_ELEMENT]. *)
Definition null_placed (w : World) (b : Block) (r c : Z) : Prop :=
  ∃ p : loc,
    cell b r c = Some p
    ∧ containers w !! p
        = Some {| state := index_side (r, c); el_proxy := NULL_ELEMENT |}.

(** The constructor's loop invariant, [n] cells into the row-major walk
    that started in world [w0] on storage [raw]. *)
Definition ctor_inv (w0 : World) (raw : Block) (n : Z) (b : Block)
    (w : World) : Prop :=
  side_map w = side_map w0
  ∧ reverse_side_map w = reverse_side_map w0
  ∧ elements w = elements w0
  ∧ cout w = cout w0
  ∧ containers w0 ⊆ containers w
  ∧ getPosition b = getPosition raw
  ∧ ∀ r c : Z, in_block r c → BLOCK_SIZE * r + c < n → null_placed w b r c.

(** What the constructor's loop has allocated, [n] cells into the walk:
    [n] containers more are live than in [w0], and the cells assigned so far
    point to addresses that were not live in [w0]. *)
Definition ctor_alloc_inv (w0 : World) (n : Z) (b : Block) (w : World)
    : Prop :=
  Z.of_nat (size (containers w)) = Z.of_nat (size (containers w0)) + n
  ∧ ∀ (r c : Z) (p : loc),
      in_block r c → BLOCK_SIZE * r + c < n →
      cell b r c = Some p → containers w0 !! p = None.

(** Every cell holds a live container whose stored side maps, through
    [side_to_index], to the coordinates of the cell. *)
Definition placement_consistent (w : World) (b : Block) : Prop :=
  ∀ r c : Z, in_block r c →
    ∃ (p : loc) (k : ElementContainer),
      cell b r c = Some p
      ∧ containers w !! p = Some k
      ∧ eval (side_to_index (state k)) w = Some (r, c).

(** The same, on the tables read as functions, together with the tables
    being the program's: the form the proofs carry along. *)
Definition placed (w : World) (b : Block) : Prop :=
  tables_ok w
  ∧ ∀ r c : Z, in_block r c →
      ∃ (p : loc) (k : ElementContainer),
        cell b r c = Some p
        ∧ containers w !! p = Some k
        ∧ side_index (state k) = (r, c).

(** ** Clients of a block *)

(** Which containers a client hands over to [setContainer]: only ones no
    cell of the block points to, or any container at all. *)
Definition not_held (b : Block) (el : loc) : Prop :=
  ∀ r c : Z, cell b r c ≠ Some el.

Definition any_container (b : Block) (el : loc) : Prop := True.

(** The pairs of a world and a block a client can reach: it constructs the
    block, allocates containers, hands containers over to [setContainer],
    renders, and sets the position.  [allowed b el] says which containers
    the client may hand over to block [b]. *)
Inductive reachable (allowed : Block → loc → Prop) : World → Block → Prop :=
  | reach_Block (w0 w : World) (raw b : Block) :
      tables_ok w0 →
      Block_ctor raw w0 = Some (b, w) →
      reachable allowed w b
  | reach_new (w w' : World) (b : Block) (side : Side) (el p : loc) :
      reachable allowed w b →
      new_ElementContainer side el w = Some (p, w') →
      reachable allowed w' b
  | reach_setContainer (w w' : World) (b b' : Block) (el : loc) :
      reachable allowed w b →
      allowed b el →
      setContainer b el w = Some (b', w') →
      reachable allowed w' b'
  | reach_render (w w' : World) (b : Block) :
      reachable allowed w b →
      render b w = Some (tt, w') →
      reachable allowed w' b
  | reach_setPosition (w : World) (b : Block) (x y : Z) :
      reachable allowed w b →
      reachable allowed w (setPosition b x y).

(** ** The maze demo in any order *)

(** The container [main] installs for a side: a floor at the centre, a
    wall elsewhere. *)
Definition new_tile (s : Side) : M loc :=
  if decide (s = CENTER) then new_FloorContainer s None
  else new_WallContainer s None.

Definition tile_element (s : Side) : loc :=
  if decide (s = CENTER) then FLOOR_ELEMENT else WALL_ELEMENT.

(** Installing tiles for the sides of [order], one after the other. *)
Fixpoint install (order : list Side) (b : Block) : M Block :=
  match order with
  | [] => ret b
  | s :: rest =>
      c <- new_tile s ;;
      b' <- setContainer b c ;;
      install rest b'
  end.

(** The order [main] uses. *)
Definition main_order : list Side :=
  [NORTH_WEST; NORTH; NORTH_EAST; WEST; CENTER; EAST;
   SOUTH_WEST; SOUTH; SOUTH_EAST].

(** Construct the block, install the tiles, render. *)
Definition demo (raw : Block) (order : list Side) : M Block :=
  new_block <- Block_ctor raw ;;
  new_block <- install order new_block ;;
  render new_block ;;
  ret new_block.

(** What the decorated block prints. *)
Definition demo_text : string :=
  "■ ■ ■ " ++ endl ++ "■   ■ " ++ endl ++ "■ ■ ■ " ++ endl.

(** The cells are placed, and those for the sides in [P] hold tiles. *)
Definition tiled (P : Side → Prop) (w : World) (b : Block) : Prop :=
  placed w b
  ∧ ∀ (r c : Z) (p : loc) (k : ElementContainer),
      cell b r c = Some p → containers w !! p = Some k → P (state k) →
      el_proxy k = tile_element (state k).

(** ** A sample run

    A block constructed in the initial world on storage holding arbitrary
    values; then one wall container for [NORTH], first allocated, then
    installed. *)
Definition raw_block : Block :=
  {| grid := mkArray3 (mkArray3 5 5 5) (mkArray3 5 5 5) (mkArray3 5 5 5);
     pos_x := -1; pos_y := 7 |}%positive.

Definition sample_block : Block :=
  Eval vm_compute in default raw_block (eval (Block_ctor raw_block) initial_world).

Definition ctor_world : World :=
  Eval vm_compute in
    default initial_world (exec (Block_ctor raw_block) initial_world).

Definition sample_wall : loc :=
  Eval vm_compute in
    default 1%positive (eval (new_WallContainer NORTH None) ctor_world).

Definition sample_world : World :=
  Eval vm_compute in
    default ctor_world (exec (new_WallContainer NORTH None) ctor_world).

Definition installed_block : Block :=
  Eval vm_compute in
    default sample_block
      (eval (setContainer sample_block sample_wall) sample_world).

Definition installed_world : World :=
  Eval vm_compute in
    default sample_world
      (exec (setContainer sample_block sample_wall) sample_world).

(** The world after rendering the block as constructed. *)
Definition rendered_world : World :=
  Eval vm_compute in
    default sample_world (exec (render sample_block) sample_world).

(** Handing the block a container it already holds: the occupant of
    [(0, 1)], read with [getElement], goes back into [setContainer]. *)
Definition held_north : loc :=
  Eval vm_compute in default 1%positive (cell sample_block 0 1).

Definition dangling_block : Block :=
  Eval vm_compute in
    default sample_block (eval (setContainer sample_block held_north) ctor_world).

Definition dangling_world : World :=
  Eval vm_compute in
    default ctor_world (exec (setContainer sample_block held_north) ctor_world).

(** A second wall container for [NORTH], allocated beside [sample_wall]. *)
Definition twin_wall : loc :=
  Eval vm_compute in
    default 1%positive (eval (new_WallContainer NORTH None) sample_world).

Definition twin_world : World :=
  Eval vm_compute in
    default sample_world (exec (new_WallContainer NORTH None) sample_world).

(** * Properties *)

Example repr_wall_north :
  eval (Element_repr WALL_ELEMENT NORTH) initial_world = Some "■".
Proof. vm_compute. reflexivity. Qed.

Example repr_null_center :
  eval (Element_repr NULL_ELEMENT CENTER) initial_world = Some "".
Proof. vm_compute. reflexivity. Qed.

(** ** Worlds and records *)

Lemma set_side_map_id (w : World) : set_side_map (side_map w) w = w.
Proof. by destruct w. Qed.

Lemma set_reverse_side_map_id (w : World) :
  set_reverse_side_map (reverse_side_map w) w = w.
Proof. by destruct w. Qed.

Lemma set_elements_id (w : World) : set_elements (elements w) w = w.
Proof. by destruct w. Qed.

Lemma Element_eta (e : Element) : {| representations := representations e |} = e.
Proof. by destruct e. Qed.

(** ** operator[] *)

Section subscript.
Context `{Countable K} {V : Type}.
Implicit Types (m : gmap K V) (k : K) (dflt v : V).

Lemma map_subscript_Some dflt m k v :
  m !! k = Some v → map_subscript dflt m k = (v, m).
Proof. intros Hk. unfold map_subscript. by rewrite Hk. Qed.

Lemma map_subscript_None dflt m k :
  m !! k = None → map_subscript dflt m k = (dflt, <[k := dflt]> m).
Proof. intros Hk. unfold map_subscript. by rewrite Hk. Qed.

(** The value returned is the lookup with a default... *)
Lemma map_subscript_fst dflt m k :
  fst (map_subscript dflt m k) = default dflt (m !! k).
Proof. unfold map_subscript. by destruct (m !! k). Qed.

(** ... and the map afterwards answers every lookup-with-default as
    before. *)
Lemma map_subscript_snd_default dflt m k k' :
  default dflt (snd (map_subscript dflt m k) !! k') = default dflt (m !! k').
Proof.
  unfold map_subscript. destruct (m !! k) as [v|] eqn:Hk; simpl; [done|].
  destruct (decide (k = k')) as [->|Hne].
  - by rewrite lookup_insert_eq, Hk.
  - by rewrite lookup_insert_ne.
Qed.
End subscript.

(** ** The coordinate tables *)

Lemma tables_ok_initial : tables_ok initial_world.
Proof. split; [done|]. by simpl. Qed.

Lemma side_map_init_lookup (s : Side) :
  side_map_init !! s = Some (side_index s).
Proof. by destruct s. Qed.

Lemma in_block_cases (r c : Z) :
  in_block r c →
  (r, c) ∈ [(0,0); (0,1); (0,2); (1,0); (1,1); (1,2); (2,0); (2,1); (2,2)].
Proof.
  unfold in_block, BLOCK_SIZE. intros [Hr Hc].
  assert (r = 0 ∨ r = 1 ∨ r = 2) as Hr' by lia.
  assert (c = 0 ∨ c = 1 ∨ c = 2) as Hc' by lia.
  destruct Hr' as [-> | [-> | ->]], Hc' as [-> | [-> | ->]]; repeat constructor.
Qed.

Ltac block_cases r c H :=
  let H' := fresh in
  pose proof (in_block_cases r c H) as H';
  repeat (apply elem_of_cons in H'; destruct H' as [H'|H']);
  [inversion H'; subst; clear H' .. | by apply elem_of_nil in H'].

Lemma reverse_side_map_init_lookup (r c : Z) :
  in_block r c →
  reverse_side_map_init !! (r, c) = Some (index_side (r, c)).
Proof. intros Hrc. block_cases r c Hrc; reflexivity. Qed.

Lemma side_index_in_block (s : Side) :
  in_block (fst (side_index s)) (snd (side_index s)).
Proof. destruct s; vm_compute; intuition discriminate. Qed.

Lemma index_side_index (r c : Z) :
  in_block r c → side_index (index_side (r, c)) = (r, c).
Proof. intros Hrc. block_cases r c Hrc; reflexivity. Qed.

Lemma side_index_side (s : Side) : index_side (side_index s) = s.
Proof. by destruct s. Qed.

Lemma side_to_index_ok (s : Side) (w : World) :
  side_map w = side_map_init →
  side_to_index s w = Some (side_index s, w).
Proof.
  intros Hw. unfold side_to_index.
  rewrite (map_subscript_Some _ _ _ (side_index s))
    by (rewrite Hw; apply side_map_init_lookup).
  by rewrite set_side_map_id.
Qed.

Lemma index_to_side_ok (r c : Z) (w : World) :
  reverse_side_map_init ⊆ reverse_side_map w →
  in_block r c →
  index_to_side r c w = Some (index_side (r, c), w).
Proof.
  intros Hw Hrc. unfold index_to_side.
  rewrite (map_subscript_Some _ _ _ (index_side (r, c))).
  - by rewrite set_reverse_side_map_id.
  - eapply lookup_weaken; [|exact Hw]. by apply reverse_side_map_init_lookup.
Qed.

(** C4. The side/coordinate tables are inverse bijections between the nine
    sides and the nine coordinates of the grid: in a world whose tables are
    the program's, [side_to_index(index_to_side(r, c))] is [(r, c)] for
    every coordinate of the grid, [index_to_side(side_to_index(s))] is [s]
    for every side, the coordinates of a side lie in the grid, and neither
    call changes the world. *)
Theorem side_index_bijection (w : World) :
  tables_ok w →
  (∀ r c : Z, in_block r c →
     (s <- index_to_side r c ;; side_to_index s) w = Some ((r, c), w)) ∧
  (∀ s : Side,
     (p <- side_to_index s ;; index_to_side (fst p) (snd p)) w = Some (s, w)
     ∧ in_block (fst (side_index s)) (snd (side_index s))
     ∧ eval (side_to_index s) w = Some (side_index s)).
Proof.
  intros [Hs Hr]. split.
  - intros r c Hrc. unfold bind.
    rewrite index_to_side_ok by done.
    rewrite side_to_index_ok by done.
    by rewrite index_side_index.
  - intros s. split; [|split].
    + unfold bind. rewrite side_to_index_ok by done.
      rewrite index_to_side_ok by (done || apply side_index_in_block).
      destruct (side_index s) eqn:E. simpl. by rewrite <- E, side_index_side.
    + apply side_index_in_block.
    + unfold eval. by rewrite side_to_index_ok.
Qed.

Lemma side_index_bijection_witness :
  (s <- index_to_side 1 2 ;; side_to_index s) initial_world
    = Some ((1, 2), initial_world)
  ∧ (p <- side_to_index SOUTH ;; index_to_side (fst p) (snd p)) initial_world
    = Some (SOUTH, initial_world).
Proof.
  destruct (side_index_bijection initial_world tables_ok_initial) as [H1 H2].
  split.
  - apply H1. unfold in_block, BLOCK_SIZE. lia.
  - apply (H2 SOUTH).
Defined.

(** ** Element::repr *)

(** Looking up a key the element has: the glyph is returned and nothing
    changes. *)
Lemma Element_repr_present (this : loc) (key : Side) (w : World)
    (e : Element) (v : string) :
  elements w !! this = Some e →
  representations e !! key = Some v →
  Element_repr this key w = Some (v, w).
Proof.
  intros He Hk. unfold Element_repr. rewrite He.
  rewrite (map_subscript_Some _ _ _ v) by done.
  rewrite Element_eta, insert_id by done.
  by rewrite set_elements_id.
Qed.

(** Looking up a key the element lacks: the empty string is returned and
    the key is added to the element with that value. *)
Lemma Element_repr_absent (this : loc) (key : Side) (w : World) (e : Element) :
  elements w !! this = Some e →
  representations e !! key = None →
  Element_repr this key w =
    Some ("", set_elements
                (<[this := Element_ctor (<[key := ""]> (representations e))]>
                   (elements w)) w).
Proof.
  intros He Hk. unfold Element_repr. rewrite He.
  by rewrite map_subscript_None by done.
Qed.

(** C5. For every live element and every side that is not a key of its
    mapping, [repr] is defined and returns the empty string. *)
Theorem Element_repr_absent_key (this : loc) (key : Side) (w : World)
    (e : Element) :
  elements w !! this = Some e →
  representations e !! key = None →
  ∃ w' : World, Element_repr this key w = Some ("", w').
Proof.
  intros He Hk. rewrite (Element_repr_absent _ _ _ e) by done. eauto.
Qed.

Lemma Element_repr_absent_key_witness :
  ∃ w' : World, Element_repr NULL_ELEMENT CENTER initial_world = Some ("", w').
Proof.
  apply (Element_repr_absent_key NULL_ELEMENT CENTER initial_world
           (Element_ctor NULL_REPRESENTATIONS)); reflexivity.
Defined.

Lemma WALL_REPRESENTATIONS_lookup (s : Side) :
  WALL_REPRESENTATIONS !! s = Some (wall_glyph s).
Proof. by destruct s. Qed.

Lemma FLOOR_REPRESENTATIONS_lookup (s : Side) :
  FLOOR_REPRESENTATIONS !! s = Some (floor_glyph s).
Proof. by destruct s. Qed.

(** C6. On an element built from [WALL_REPRESENTATIONS], [repr] returns the
    filled glyph for each of the nine sides except [CENTER], where it
    returns the blank glyph; the world is left as it was. *)
Theorem wall_element_repr (this : loc) (w : World) (s : Side) :
  elements w !! this = Some (Element_ctor WALL_REPRESENTATIONS) →
  Element_repr this s w = Some (if decide (s = CENTER) then " " else "■", w).
Proof.
  intros He. eapply Element_repr_present; [exact He|].
  apply WALL_REPRESENTATIONS_lookup.
Qed.

Lemma wall_element_repr_witness :
  Element_repr WALL_ELEMENT NORTH initial_world = Some ("■", initial_world)
  ∧ Element_repr WALL_ELEMENT CENTER initial_world = Some (" ", initial_world).
Proof.
  split.
  - apply (wall_element_repr WALL_ELEMENT initial_world NORTH). reflexivity.
  - apply (wall_element_repr WALL_ELEMENT initial_world CENTER). reflexivity.
Defined.

(** C7. On an element built from [FLOOR_REPRESENTATIONS], [repr] returns the
    blank glyph for each of the nine sides; the world is left as it was. *)
Theorem floor_element_repr (this : loc) (w : World) (s : Side) :
  elements w !! this = Some (Element_ctor FLOOR_REPRESENTATIONS) →
  Element_repr this s w = Some (" ", w).
Proof.
  intros He. eapply Element_repr_present; [exact He|].
  apply FLOOR_REPRESENTATIONS_lookup.
Qed.

Lemma floor_element_repr_witness :
  Element_repr FLOOR_ELEMENT CENTER initial_world = Some (" ", initial_world).
Proof.
  apply (floor_element_repr FLOOR_ELEMENT initial_world CENTER). reflexivity.
Defined.

(** C8. [repr] is not read-only: asked for [CENTER], which
    [NULL_REPRESENTATIONS] lacks, it returns the empty string and leaves
    [NULL_ELEMENT] with a ninth entry, so the element's mapping is no
    longer the one it was constructed with. *)
Theorem Element_repr_extends_null_element :
  ∃ w' : World,
    Element_repr NULL_ELEMENT CENTER initial_world = Some ("", w')
    ∧ elements initial_world !! NULL_ELEMENT
        = Some (Element_ctor NULL_REPRESENTATIONS)
    ∧ elements w' !! NULL_ELEMENT
        = Some (Element_ctor (<[CENTER := ""]> NULL_REPRESENTATIONS))
    ∧ NULL_REPRESENTATIONS !! CENTER = None
    ∧ <[CENTER := ""]> NULL_REPRESENTATIONS !! CENTER = Some ""
    ∧ elements w' !! NULL_ELEMENT ≠ elements initial_world !! NULL_ELEMENT.
Proof.
  eexists. split; [|split; [|split; [|split; [|split]]]].
  - apply (Element_repr_absent _ _ _ (Element_ctor NULL_REPRESENTATIONS));
      reflexivity.
  - reflexivity.
  - simpl. by rewrite lookup_insert_eq.
  - reflexivity.
  - reflexivity.
  - simpl. rewrite lookup_insert_eq. intros Heq.
    apply (f_equal (λ o, e ← o; representations e !! CENTER)) in Heq.
    vm_compute in Heq. discriminate.
Qed.

(** ** Arrays of three and the grid *)

(** Case analysis on an index: 0, 1, 2 or out of range. *)
Ltac case_index i :=
  destruct i as [|[[?|?|]|[?|?|]|]|?]; simpl in *; try done.

Lemma get3_is_Some {A : Type} (a : array3 A) (i : Z) :
  is_Some (get3 a i) ↔ 0 ≤ i < BLOCK_SIZE.
Proof.
  unfold BLOCK_SIZE. split.
  - intros [x Hx]. case_index i; lia.
  - intros Hi. case_index i; eauto; lia.
Qed.

Lemma set3_is_Some {A : Type} (a : array3 A) (i : Z) (x : A) :
  is_Some (set3 a i x) ↔ 0 ≤ i < BLOCK_SIZE.
Proof.
  unfold BLOCK_SIZE. split.
  - intros [y Hy]. case_index i; lia.
  - intros Hi. case_index i; eauto; lia.
Qed.

Lemma get3_set3 {A : Type} (a a' : array3 A) (i j : Z) (x : A) :
  set3 a i x = Some a' →
  get3 a' j = if decide (j = i) then Some x else get3 a j.
Proof.
  intros Hset.
  case_index i; simplify_eq; case_index j.
Qed.

Lemma cell_is_Some (b : Block) (r c : Z) :
  is_Some (cell b r c) ↔ in_block r c.
Proof.
  unfold cell, in_block. split.
  - intros [p Hp].
    destruct (get3 (grid b) r) as [row|] eqn:Hr; simpl in Hp; [|done].
    split; [apply (get3_is_Some (grid b)) | apply (get3_is_Some row)]; eauto.
  - intros [Hr Hc].
    destruct (proj2 (get3_is_Some (grid b) r) Hr) as [row ->]. simpl.
    by apply get3_is_Some.
Qed.

Lemma cell_assign_is_Some (b : Block) (r c : Z) (p : loc) :
  in_block r c → is_Some (cell_assign b r c p).
Proof.
  intros [Hr Hc]. unfold cell_assign.
  destruct (proj2 (get3_is_Some (grid b) r) Hr) as [row ->]. simpl.
  destruct (proj2 (set3_is_Some row c p) Hc) as [row' ->]. simpl.
  destruct (proj2 (set3_is_Some (grid b) r row') Hr) as [g ->]. simpl.
  eauto.
Qed.

(** [grid[r][c] = p] changes the cell at [(r, c)] and no other cell, and
    leaves the position alone. *)
Lemma cell_cell_assign (b b' : Block) (r c r' c' : Z) (p : loc) :
  cell_assign b r c p = Some b' →
  cell b' r' c' = if decide ((r', c') = (r, c)) then Some p else cell b r' c'.
Proof.
  unfold cell_assign, cell. intros Hb.
  destruct (get3 (grid b) r) as [row|] eqn:Hrow; simpl in Hb; [|done].
  destruct (set3 row c p) as [row'|] eqn:Hrow'; simpl in Hb; [|done].
  destruct (set3 (grid b) r row') as [g|] eqn:Hg; simpl in Hb; [|done].
  simplify_eq. simpl.
  rewrite (get3_set3 _ _ _ r' _ Hg).
  destruct (decide (r' = r)) as [->|Hr].
  - simpl. rewrite Hrow. simpl. rewrite (get3_set3 _ _ _ c' _ Hrow').
    destruct (decide (c' = c)) as [->|Hc].
    + by rewrite decide_True.
    + rewrite decide_False; [done|]. intros [=]. done.
  - rewrite decide_False; [done|]. intros [=]. done.
Qed.

Lemma cell_assign_position (b b' : Block) (r c : Z) (p : loc) :
  cell_assign b r c p = Some b' → pos_x b' = pos_x b ∧ pos_y b' = pos_y b.
Proof.
  unfold cell_assign. intros Hb.
  destruct (get3 (grid b) r) as [row|]; simpl in Hb; [|done].
  destruct (set3 row c p) as [row'|]; simpl in Hb; [|done].
  destruct (set3 (grid b) r row') as [g|]; simpl in Hb; [|done].
  by simplify_eq.
Qed.

(** ** Running computations *)

Lemma bind_Some {A B : Type} (m : M A) (f : A → M B) (w w' : World) (a : A) :
  m w = Some (a, w') → bind m f w = f a w'.
Proof. intros Hm. unfold bind. by rewrite Hm. Qed.

Lemma bind_inv {A B : Type} (m : M A) (f : A → M B) (w w2 : World) (b : B) :
  bind m f w = Some (b, w2) →
  ∃ (a : A) (w1 : World), m w = Some (a, w1) ∧ f a w1 = Some (b, w2).
Proof.
  unfold bind. destruct (m w) as [[a w1]|]; [|done]. eauto.
Qed.

Lemma lift_Some {A : Type} (o : option A) (a : A) (w : World) :
  o = Some a → lift o w = Some (a, w).
Proof. by intros ->. Qed.

Lemma lift_inv {A : Type} (o : option A) (a : A) (w w' : World) :
  lift o w = Some (a, w') → o = Some a ∧ w' = w.
Proof. unfold lift. destruct o; naive_solver. Qed.

(** ** ElementContainer *)

Lemma container_at_ok (this : loc) (w : World) (k : ElementContainer) :
  containers w !! this = Some k → container_at this w = Some (k, w).
Proof. intros Hk. unfold container_at. by rewrite Hk. Qed.

Lemma container_at_inv (this : loc) (w w' : World) (k : ElementContainer) :
  container_at this w = Some (k, w') → containers w !! this = Some k ∧ w' = w.
Proof. unfold container_at. destruct (containers w !! this); naive_solver. Qed.

Lemma getSide_ok (this : loc) (w : World) (k : ElementContainer) :
  containers w !! this = Some k → getSide this w = Some (state k, w).
Proof.
  intros Hk. unfold getSide.
  by rewrite (bind_Some _ _ _ _ _ (container_at_ok _ _ _ Hk)).
Qed.

Lemma delete_container_ok (p : loc) (w : World) (k : ElementContainer) :
  containers w !! p = Some k →
  delete_container p w
    = Some (tt, set_containers (delete p (containers w)) w).
Proof.
  intros Hk. unfold delete_container.
  by rewrite (bind_Some _ _ _ _ _ (container_at_ok _ _ _ Hk)).
Qed.

(** ** Block::setContainer *)

(** A defined call of [setContainer]: the container handed over and the
    occupant of its cell are live; the occupant is deleted and the cell
    assigned. *)
Lemma setContainer_ok (w : World) (b b' : Block) (el old : loc)
    (k k_old : ElementContainer) :
  side_map w = side_map_init →
  containers w !! el = Some k →
  cell b (fst (side_index (state k))) (snd (side_index (state k))) = Some old →
  containers w !! old = Some k_old →
  cell_assign b (fst (side_index (state k))) (snd (side_index (state k))) el
    = Some b' →
  setContainer b el w
    = Some (b', set_containers (delete old (containers w)) w).
Proof.
  intros Hw Hel Hold Hk_old Hb'. unfold setContainer.
  rewrite (bind_Some _ _ _ _ _ (getSide_ok _ _ _ Hel)).
  rewrite (bind_Some _ _ _ _ _ (side_to_index_ok _ _ Hw)).
  rewrite (bind_Some _ _ _ _ _ (lift_Some _ _ _ Hold)).
  rewrite (bind_Some _ _ _ _ _ (delete_container_ok _ _ _ Hk_old)).
  by apply lift_Some.
Qed.

Lemma setContainer_inv (w w' : World) (b b' : Block) (el : loc) :
  side_map w = side_map_init →
  setContainer b el w = Some (b', w') →
  ∃ (k k_old : ElementContainer) (old : loc),
    containers w !! el = Some k
    ∧ cell b (fst (side_index (state k))) (snd (side_index (state k)))
        = Some old
    ∧ containers w !! old = Some k_old
    ∧ cell_assign b (fst (side_index (state k))) (snd (side_index (state k))) el
        = Some b'
    ∧ w' = set_containers (delete old (containers w)) w.
Proof.
  intros Hw Hset. unfold setContainer in Hset.
  apply bind_inv in Hset as (s & w1 & Hs & Hset).
  unfold getSide in Hs. apply bind_inv in Hs as (k & w0 & Hk & Hs).
  apply container_at_inv in Hk as [Hk ->]. injection Hs as <- <-.
  rewrite (bind_Some _ _ _ _ _ (side_to_index_ok _ _ Hw)) in Hset.
  apply bind_inv in Hset as (old & w2 & Hold & Hset).
  apply lift_inv in Hold as [Hold ->].
  apply bind_inv in Hset as ([] & w3 & Hdel & Hset).
  unfold delete_container in Hdel.
  apply bind_inv in Hdel as (k_old & w4 & Hk_old & Hdel).
  apply container_at_inv in Hk_old as [Hk_old ->]. injection Hdel as <-.
  apply lift_inv in Hset as [Hset ->].
  by exists k, k_old, old.
Qed.

(** ** The sample run *)

Lemma sample_run :
  (b <- Block_ctor raw_block ;; p <- new_WallContainer NORTH None ;; ret (b, p))
    initial_world
  = Some ((sample_block, sample_wall), sample_world).
Proof. vm_compute. reflexivity. Qed.

Lemma sample_ctor :
  Block_ctor raw_block initial_world = Some (sample_block, ctor_world).
Proof. vm_compute. reflexivity. Qed.

Lemma sample_new :
  new_ElementContainer NORTH WALL_ELEMENT ctor_world
  = Some (sample_wall, sample_world).
Proof. vm_compute. reflexivity. Qed.

Lemma sample_wall_not_held : not_held sample_block sample_wall.
Proof.
  intros r c Hcell.
  assert (in_block r c) as Hrc by (apply (cell_is_Some sample_block); eauto).
  block_cases r c Hrc; vm_compute in Hcell; discriminate.
Qed.

Lemma sample_setContainer :
  setContainer sample_block sample_wall sample_world
  = Some (installed_block, installed_world).
Proof. vm_compute. reflexivity. Qed.

Lemma sample_render :
  render sample_block sample_world = Some (tt, rendered_world).
Proof. vm_compute. reflexivity. Qed.

Lemma sample_hand_back :
  (el <- getElement sample_block 0 1 ;; setContainer sample_block el) ctor_world
  = Some (dangling_block, dangling_world).
Proof. vm_compute. reflexivity. Qed.

(** C3. [setContainer] with a live container [el] of side [s], on a block
    whose cell for [s] holds a live container, is defined; afterwards the
    cell at [side_to_index(s)] holds [el], the other eight cells hold what
    they held, the position is as before, and of the world only the heap of
    containers has changed: the previous occupant is gone, every other
    container is untouched.  For [s = NORTH] the cell is [(0, 1)]. *)
Theorem setContainer_one_cell (w : World) (b : Block) (el : loc)
    (k : ElementContainer) :
  side_map w = side_map_init →
  containers w !! el = Some k →
  occupant_live w b (fst (side_index (state k))) (snd (side_index (state k))) →
  ∃ (b' : Block) (w' : World),
    setContainer b el w = Some (b', w')
    ∧ cell b' (fst (side_index (state k))) (snd (side_index (state k)))
        = Some el
    ∧ (∀ r c : Z, (r, c) ≠ side_index (state k) → cell b' r c = cell b r c)
    ∧ (state k = NORTH →
         cell b' 0 1 = Some el
         ∧ ∀ r c : Z, (r, c) ≠ (0, 1) → cell b' r c = cell b r c)
    ∧ getPosition b' = getPosition b
    ∧ (∀ p : loc,
         cell b (fst (side_index (state k))) (snd (side_index (state k)))
           ≠ Some p →
         containers w' !! p = containers w !! p)
    ∧ side_map w' = side_map w
    ∧ reverse_side_map w' = reverse_side_map w
    ∧ elements w' = elements w
    ∧ cout w' = cout w.
Proof.
  intros Hw Hel (old & k_old & Hold & Hk_old).
  destruct (cell_assign_is_Some b _ _ el (side_index_in_block (state k)))
    as [b' Hb'].
  exists b', (set_containers (delete old (containers w)) w).
  assert (∀ r c : Z, (r, c) ≠ side_index (state k) → cell b' r c = cell b r c)
    as Hframe.
  { intros r c Hne. rewrite (cell_cell_assign _ _ _ _ r c _ Hb').
    rewrite decide_False; [done|]. by destruct (side_index (state k)). }
  assert (cell b' (fst (side_index (state k))) (snd (side_index (state k)))
          = Some el) as Hcell.
  { rewrite (cell_cell_assign _ _ _ _ _ _ _ Hb'). by rewrite decide_True. }
  split; [by eapply setContainer_ok|].
  split; [done|]. split; [done|].
  split.
  { intros HN. rewrite HN in Hcell, Hframe. done. }
  split.
  { unfold getPosition. by destruct (cell_assign_position _ _ _ _ _ Hb') as [-> ->]. }
  split; [|done].
  intros p Hp. simpl. apply lookup_delete_ne. intros <-. by apply Hp.
Qed.

Lemma setContainer_one_cell_witness :
  ∃ (b' : Block) (w' : World),
    setContainer sample_block sample_wall sample_world = Some (b', w')
    ∧ cell b' 0 1 = Some sample_wall
    ∧ ∀ r c : Z, (r, c) ≠ (0, 1) → cell b' r c = cell sample_block r c.
Proof.
  destruct (setContainer_one_cell sample_world sample_block sample_wall
              {| state := NORTH; el_proxy := WALL_ELEMENT |})
    as (b' & w' & Hrun & _ & _ & HN & _).
  - reflexivity.
  - reflexivity.
  - eexists _, _. split; reflexivity.
  - exists b', w'. split; [exact Hrun|]. apply HN. reflexivity.
Defined.

(** ** Loops *)

(** A counting loop establishes [I (lo + n)] from [I lo] when its body
    is defined under the invariant and moves it by one. *)
Lemma for_range_rule {St : Type} (I : Z → St → World → Prop)
    (body : Z → St → M St) (n : nat) (lo : Z) (s : St) (w : World) :
  I lo s w →
  (∀ (i : Z) (s : St) (w : World),
     lo ≤ i < lo + Z.of_nat n → I i s w →
     ∃ (s' : St) (w' : World), body i s w = Some (s', w') ∧ I (i + 1) s' w') →
  ∃ (s' : St) (w' : World),
    for_range n lo body s w = Some (s', w') ∧ I (lo + Z.of_nat n) s' w'.
Proof.
  revert lo s w. induction n as [|n IH]; intros lo s w HI Hbody; simpl.
  - exists s, w. by rewrite Z.add_0_r.
  - destruct (Hbody lo s w) as (s1 & w1 & Hrun & HI1); [lia|done|].
    rewrite (bind_Some _ _ _ _ _ Hrun).
    destruct (IH (lo + 1) s1 w1 HI1) as (s2 & w2 & Hrun2 & HI2).
    { intros i s' w' Hi. apply Hbody. lia. }
    exists s2, w2. split; [done|].
    by replace (lo + Z.of_nat (S n)) with (lo + 1 + Z.of_nat n) by lia.
Qed.

(** ** Block::Block() *)

Lemma new_ElementContainer_spec (side : Side) (el : loc) (w : World) :
  ∃ p : loc,
    containers w !! p = None
    ∧ new_ElementContainer side el w
      = Some (p, set_containers
                   (<[p := {| state := side; el_proxy := el |}]> (containers w))
                   w).
Proof.
  exists (fresh (dom (containers w))). split; [|done].
  apply not_elem_of_dom. apply is_fresh.
Qed.

Lemma ctor_cell_step (w0 : World) (raw : Block) (i j : Z) (b : Block)
    (w : World) :
  tables_ok w0 → in_block i j →
  ctor_inv w0 raw (BLOCK_SIZE * i + j) b w →
  ∃ (b' : Block) (w' : World),
    (mapped_side <- index_to_side i j ;;
     p <- new_NullContainer mapped_side None ;;
     lift (cell_assign b i j p)) w = Some (b', w')
    ∧ ctor_inv w0 raw (BLOCK_SIZE * i + j + 1) b' w'.
Proof.
  intros [Hs0 Hr0] Hij (Hs & Hr & He & Hc & Hsub & Hpos & Hcells).
  rewrite (bind_Some _ _ _ _ _ (index_to_side_ok i j w ltac:(by rewrite Hr) Hij)).
  unfold new_NullContainer. simpl.
  destruct (new_ElementContainer_spec (index_side (i, j)) NULL_ELEMENT w)
    as (p & Hp & Hnew).
  rewrite (bind_Some _ _ _ _ _ Hnew).
  destruct (cell_assign_is_Some b i j p Hij) as [b' Hb'].
  exists b'. eexists. split; [by apply lift_Some|].
  repeat split; simpl; try done.
  - apply insert_subseteq_r; [|done]. by eapply lookup_weaken_None.
  - unfold getPosition.
    by destruct (cell_assign_position _ _ _ _ _ Hb') as [-> ->].
  - intros r c Hrc Hlt. unfold null_placed. simpl.
    rewrite (cell_cell_assign _ _ _ _ r c _ Hb').
    destruct (decide ((r, c) = (i, j))) as [[= -> ->]|Hne].
    + exists p. by rewrite lookup_insert_eq.
    + destruct (Hcells r c Hrc) as (q & Hq & Hk).
      { unfold in_block, BLOCK_SIZE in *.
        destruct (decide (BLOCK_SIZE * r + c = BLOCK_SIZE * i + j)) as [Heq|];
          unfold BLOCK_SIZE in *; [|lia].
        exfalso. apply Hne. f_equal; lia. }
      exists q. split; [done|].
      rewrite lookup_insert_ne; [done|]. intros ->. by rewrite Hp in Hk.
Qed.

(** The constructor is defined in every world with the program's tables;
    it only allocates containers, and leaves the nine cells null-placed. *)
Lemma Block_ctor_spec (raw : Block) (w0 : World) :
  tables_ok w0 →
  ∃ (b : Block) (w : World),
    Block_ctor raw w0 = Some (b, w)
    ∧ ctor_inv w0 raw (BLOCK_SIZE * BLOCK_SIZE) b w.
Proof.
  intros Hw0. unfold Block_ctor.
  change (Z.to_nat BLOCK_SIZE) with 3%nat.
  apply (for_range_rule (λ i b w, ctor_inv w0 raw (BLOCK_SIZE * i) b w)).
  - repeat split; try done.
    intros r c [Hr Hc]. unfold BLOCK_SIZE in *. lia.
  - intros i b w Hi Hinv.
    replace (BLOCK_SIZE * (i + 1)) with (BLOCK_SIZE * i + Z.of_nat 3)
      by (unfold BLOCK_SIZE; lia).
    apply (for_range_rule
             (λ j b w, ctor_inv w0 raw (BLOCK_SIZE * i + j) b w)).
    + by rewrite Z.add_0_r.
    + intros j b1 w1 Hj Hinv1.
      rewrite Z.add_assoc. apply ctor_cell_step; [done| |done].
      unfold in_block, BLOCK_SIZE. lia.
Qed.

(** ** What a container shows *)

Lemma string_app_assoc (a b c : string) : (a ++ b) ++ c = a ++ (b ++ c).
Proof.
  induction a as [|x a IH]; [done|].
  change (String x ((a ++ b) ++ c) = String x (a ++ (b ++ c))).
  by rewrite IH.
Qed.

Lemma string_app_nil_r (a : string) : a ++ "" = a.
Proof.
  induction a as [|x a IH]; [done|].
  change (String x (a ++ "") = String x a). by rewrite IH.
Qed.

Lemma repr_equiv_refl (w : World) : repr_equiv w w.
Proof. by repeat split. Qed.

Lemma repr_equiv_trans (w1 w2 w3 : World) :
  repr_equiv w1 w2 → repr_equiv w2 w3 → repr_equiv w1 w3.
Proof.
  intros (Hs & Hr & Hc & Hg) (Hs' & Hr' & Hc' & Hg').
  split; [congruence|]. split; [congruence|]. split; [congruence|].
  intros l key. by rewrite Hg', Hg.
Qed.

Lemma glyph_equiv (w w' : World) (p : loc) :
  repr_equiv w w' → glyph w' p = glyph w p.
Proof.
  intros (_ & _ & Hc & Hg). unfold glyph. rewrite Hc.
  destruct (containers w !! p); simpl; [apply Hg|done].
Qed.

(** [Element::repr] returns the glyph read without touching the element,
    and is undefined only on a dangling pointer. *)
Lemma Element_repr_glyph (this : loc) (key : Side) (w : World) :
  match Element_repr this key w with
  | Some (v, w') =>
      elem_glyph w this key = Some v ∧ repr_equiv w w' ∧ cout w' = cout w
  | None => elem_glyph w this key = None
  end.
Proof.
  unfold Element_repr, elem_glyph.
  destruct (elements w !! this) as [e|] eqn:He; simpl; [|done].
  destruct (map_subscript "" (representations e) key) as [v m] eqn:Hm.
  split; [|split; [|done]].
  - by rewrite <- map_subscript_fst, Hm.
  - repeat split; simpl. intros l key'. unfold elem_glyph. simpl.
    destruct (decide (this = l)) as [<-|Hne].
    + rewrite lookup_insert_eq, He. simpl. f_equal.
      change m with (snd (v, m)). rewrite <- Hm.
      apply map_subscript_snd_default.
    + by rewrite lookup_insert_ne.
Qed.

Lemma ElementContainer_repr_glyph (p : loc) (w : World) :
  match ElementContainer_repr p w with
  | Some (v, w') =>
      glyph w p = Some v ∧ repr_equiv w w' ∧ cout w' = cout w
  | None => glyph w p = None
  end.
Proof.
  unfold ElementContainer_repr, glyph, bind, container_at.
  destruct (containers w !! p) as [k|]; simpl; [|done].
  apply Element_repr_glyph.
Qed.

(** ** Printing *)

Lemma prints_ret : prints (ret tt) (λ _, Some "").
Proof.
  split; [|done]. intros w. simpl. exists "".
  by rewrite string_app_nil_r; auto using repr_equiv_refl.
Qed.

Lemma prints_put (s : string) : prints (cout_put s) (λ _, Some s).
Proof.
  split; [|done]. intros w. simpl. exists s.
  repeat split; done.
Qed.

Lemma prints_seq (m1 m2 : M unit) (t1 t2 : World → option string) :
  prints m1 t1 → prints m2 t2 → prints (m1 ;; m2) (seq_text t1 t2).
Proof.
  intros [H1 E1] [H2 E2]. split.
  - intros w. unfold bind, seq_text. specialize (H1 w).
    destruct (m1 w) as [[[] w1]|]; [|by rewrite H1].
    destruct H1 as (a & -> & Hc1 & Hw1). simpl.
    specialize (H2 w1). rewrite (E2 _ _ Hw1) in H2.
    destruct (m2 w1) as [[[] w2]|]; [|by rewrite H2].
    destruct H2 as (b & -> & Hc2 & Hw2). simpl.
    exists (a ++ b). split; [done|]. split.
    + by rewrite Hc2, Hc1, string_app_assoc.
    + by eapply repr_equiv_trans.
  - intros w w' Hw. unfold seq_text. by rewrite (E1 _ _ Hw), (E2 _ _ Hw).
Qed.

Lemma prints_for_each {A : Type} (l : list A) (body : A → M unit)
    (t : A → World → option string) :
  (∀ x : A, prints (body x) (t x)) →
  prints (for_each l body) (each_text l t).
Proof.
  intros Hbody. induction l as [|x l IH]; simpl.
  - apply prints_ret.
  - by apply prints_seq.
Qed.

Lemma prints_cell (p : loc) :
  prints (s <- ElementContainer_repr p ;; cout_put s ;; cout_put " ")
         (cell_text p).
Proof.
  split.
  - intros w. unfold bind at 1. unfold cell_text.
    pose proof (ElementContainer_repr_glyph p w) as Hp.
    destruct (ElementContainer_repr p w) as [[s w1]|]; [|by rewrite Hp].
    destruct Hp as (-> & Hw1 & Hc1). unfold bind, cout_put. simpl.
    exists (s ++ " "). split; [done|]. split.
    + by rewrite Hc1, string_app_assoc.
    + eapply repr_equiv_trans; [exact Hw1|]. by repeat split.
  - intros w w' Hw. unfold cell_text. by rewrite (glyph_equiv _ _ _ Hw).
Qed.

Lemma render_prints (b : Block) : prints (render b) (render_text b).
Proof.
  unfold render, render_text. apply prints_for_each. intros row.
  apply prints_seq; [|apply prints_put].
  apply prints_for_each. intros item. apply prints_cell.
Qed.

Lemma in_block_const (r c : Z) :
  (r, c) ∈ [(0,0); (0,1); (0,2); (1,0); (1,1); (1,2); (2,0); (2,1); (2,2)] →
  in_block r c.
Proof.
  intros Hin. unfold in_block, BLOCK_SIZE.
  repeat (apply elem_of_cons in Hin; destruct Hin as [[= -> ->]|Hin]; [lia|]).
  by apply elem_of_nil in Hin.
Qed.

Lemma render_text_cells (b : Block) (w : World) (g : Z → Z → string) :
  (∀ r c : Z, in_block r c →
     ∃ p : loc, cell b r c = Some p ∧ glyph w p = Some (g r c)) →
  render_text b w = Some (grid_string g).
Proof.
  intros Hcells.
  assert (∀ r c p, (r, c) ∈ [(0,0); (0,1); (0,2); (1,0); (1,1); (1,2);
                              (2,0); (2,1); (2,2)] →
                   cell b r c = Some p → glyph w p = Some (g r c)) as Hg.
  { intros r c p Hin Hp. destruct (Hcells r c (in_block_const _ _ Hin))
      as (q & Hq & Hglyph). congruence. }
  unfold render_text, row_text, each_text, cell_text, seq_text.
  cbn [to_list3 foldr].
  rewrite (Hg 0 0 _ ltac:(repeat constructor) eq_refl),
          (Hg 0 1 _ ltac:(repeat constructor) eq_refl),
          (Hg 0 2 _ ltac:(repeat constructor) eq_refl),
          (Hg 1 0 _ ltac:(repeat constructor) eq_refl),
          (Hg 1 1 _ ltac:(repeat constructor) eq_refl),
          (Hg 1 2 _ ltac:(repeat constructor) eq_refl),
          (Hg 2 0 _ ltac:(repeat constructor) eq_refl),
          (Hg 2 1 _ ltac:(repeat constructor) eq_refl),
          (Hg 2 2 _ ltac:(repeat constructor) eq_refl).
  reflexivity.
Qed.

(** [render] on a block whose nine cells show known glyphs. *)
Lemma render_cells (b : Block) (w : World) (g : Z → Z → string) :
  (∀ r c : Z, in_block r c →
     ∃ p : loc, cell b r c = Some p ∧ glyph w p = Some (g r c)) →
  ∃ w' : World,
    render b w = Some (tt, w')
    ∧ cout w' = cout w ++ grid_string g
    ∧ repr_equiv w w'.
Proof.
  intros Hcells. destruct (render_prints b) as [Hp _]. specialize (Hp w).
  rewrite (render_text_cells _ _ _ Hcells) in Hp.
  destruct (render b w) as [[[] w']|]; [|done].
  destruct Hp as (out & [= <-] & Hc & Hw). by exists w'.
Qed.

(** ** Block::setPosition and Block::getPosition *)

(** C9. [setPosition(x, y)] has no effect on rendering: in every world
    [render] behaves on the repositioned block as on the original one; when
    [render] is run, then [setPosition], then [render] again, the second
    run is defined and writes the text the first one wrote; the cells are
    untouched; and [getPosition] returns the pair that was set. *)
Theorem setPosition_render (b : Block) (x y : Z) :
  (∀ w : World, render (setPosition b x y) w = render b w)
  ∧ (∀ w w1 : World,
       render b w = Some (tt, w1) →
       ∃ (out : string) (w2 : World),
         cout w1 = cout w ++ out
         ∧ render (setPosition b x y) w1 = Some (tt, w2)
         ∧ cout w2 = cout w1 ++ out)
  ∧ getPosition (setPosition b x y) = (x, y)
  ∧ (∀ r c : Z, cell (setPosition b x y) r c = cell b r c).
Proof.
  split; [done|]. split; [|done].
  intros w w1 Hrun. change (render (setPosition b x y)) with (render b).
  destruct (render_prints b) as [Hp He].
  pose proof (Hp w) as H1. rewrite Hrun in H1.
  destruct H1 as (out & Hout & Hc & Hw).
  pose proof (Hp w1) as H2. rewrite (He _ _ Hw), Hout in H2.
  destruct (render b w1) as [[[] w2]|]; [|done].
  destruct H2 as (out' & [= <-] & Hc2 & _).
  by exists out, w2.
Qed.

Lemma setPosition_render_witness :
  ∃ (out : string) (w2 : World),
    cout rendered_world = cout sample_world ++ out
    ∧ render (setPosition sample_block 4 (-2)) rendered_world = Some (tt, w2)
    ∧ cout w2 = cout rendered_world ++ out.
Proof.
  exact (proj1 (proj2 (setPosition_render sample_block 4 (-2)))
           sample_world rendered_world sample_render).
Defined.

(** ** A freshly constructed block *)

Lemma null_element_blank_initial : null_element_blank initial_world.
Proof. intros s. by destruct s. Qed.

(** C2. In a world with the program's tables where the null element is
    blank, [Block()] is defined and every one of the nine cells of the new
    block holds a container whose [repr()] is the empty string, the
    [CENTER] cell included, although [NULL_REPRESENTATIONS] has no entry for
    [CENTER]; rendering the block writes three rows holding nothing but the
    three separating spaces. *)
Theorem fresh_block_blank (raw : Block) (w0 : World) :
  tables_ok w0 →
  null_element_blank w0 →
  ∃ (b : Block) (w : World),
    Block_ctor raw w0 = Some (b, w)
    ∧ (∀ r c : Z, in_block r c →
         ∃ p : loc,
           cell b r c = Some p
           ∧ eval (ElementContainer_repr p) w = Some "")
    ∧ (∃ p : loc,
         cell b 1 1 = Some p
         ∧ containers w !! p
             = Some {| state := CENTER; el_proxy := NULL_ELEMENT |})
    ∧ NULL_REPRESENTATIONS !! CENTER = None
    ∧ ∃ w' : World,
        render b w = Some (tt, w')
        ∧ cout w' = cout w ++ ("   " ++ endl ++ "   " ++ endl ++ "   " ++ endl).
Proof.
  intros Hw0 Hnull.
  destruct (Block_ctor_spec raw w0 Hw0)
    as (b & w & Hrun & _ & _ & He & _ & _ & _ & Hcells).
  assert (∀ r c : Z, in_block r c →
            ∃ p : loc, cell b r c = Some p ∧ glyph w p = Some "") as Hglyph.
  { intros r c Hrc. destruct (Hcells r c Hrc) as (p & Hp & Hk).
    { unfold in_block, BLOCK_SIZE in *. lia. }
    exists p. split; [done|]. unfold glyph. rewrite Hk. simpl.
    unfold elem_glyph. rewrite He. apply Hnull. }
  exists b, w. split; [done|]. split; [|split; [|split; [done|]]].
  - intros r c Hrc. destruct (Hglyph r c Hrc) as (p & Hp & Hg).
    exists p. split; [done|]. unfold eval.
    pose proof (ElementContainer_repr_glyph p w) as Hrepr.
    destruct (ElementContainer_repr p w) as [[v w']|]; [|congruence].
    destruct Hrepr as (Hv & _). simpl. congruence.
  - apply (Hcells 1 1); unfold in_block, BLOCK_SIZE; lia.
  - destruct (render_cells b w (λ _ _, "") Hglyph) as (w' & Hr & Hc & _).
    by exists w'.
Qed.

Lemma fresh_block_blank_witness :
  ∃ (b : Block) (w : World),
    Block_ctor raw_block initial_world = Some (b, w)
    ∧ ∀ r c : Z, in_block r c →
        ∃ p : loc,
          cell b r c = Some p ∧ eval (ElementContainer_repr p) w = Some "".
Proof.
  destruct (fresh_block_blank raw_block initial_world
              tables_ok_initial null_element_blank_initial)
    as (b & w & Hrun & Hcells & _).
  exists b, w. split; [exact Hrun | exact Hcells].
Defined.

(** ** Placement *)

Lemma placed_Block_ctor (w0 w : World) (raw b : Block) :
  tables_ok w0 → Block_ctor raw w0 = Some (b, w) → placed w b.
Proof.
  intros Hw0 Hrun.
  destruct (Block_ctor_spec raw w0 Hw0)
    as (b1 & w1 & Hrun1 & Hs & Hr & _ & _ & _ & _ & Hcells).
  rewrite Hrun in Hrun1. injection Hrun1 as <- <-.
  destruct Hw0 as [Hs0 Hr0]. split.
  - split; [congruence | by rewrite Hr].
  - intros r c Hrc. destruct (Hcells r c Hrc) as (p & Hp & Hk).
    { unfold in_block, BLOCK_SIZE in *. lia. }
    eexists p, _. split; [done|]. split; [done|]. simpl.
    by apply index_side_index.
Qed.

Lemma placed_new (w w' : World) (b : Block) (side : Side) (el p : loc) :
  placed w b → new_ElementContainer side el w = Some (p, w') → placed w' b.
Proof.
  intros [Hw Hcells] Hnew.
  destruct (new_ElementContainer_spec side el w) as (q & Hq & Hnew').
  rewrite Hnew in Hnew'. injection Hnew' as -> ->.
  split; [done|]. intros r c Hrc.
  destruct (Hcells r c Hrc) as (p & k & Hp & Hk & Hside).
  exists p, k. split; [done|]. split; [|done]. simpl.
  rewrite lookup_insert_ne; [done|]. intros ->. by rewrite Hq in Hk.
Qed.

Lemma placed_setContainer (w w' : World) (b b' : Block) (el : loc) :
  placed w b →
  not_held b el →
  setContainer b el w = Some (b', w') →
  placed w' b'.
Proof.
  intros [Hw Hcells] Hnotin Hset.
  destruct (setContainer_inv _ _ _ _ _ (proj1 Hw) Hset)
    as (k & k_old & old & Hel & Hold & Hk_old & Hb' & ->).
  split; [done|]. intros r c Hrc. simpl.
  rewrite (cell_cell_assign _ _ _ _ r c _ Hb').
  destruct (decide ((r, c)
                    = (fst (side_index (state k)), snd (side_index (state k)))))
    as [Heq|Hne].
  - exists el, k. split; [done|]. split.
    + rewrite lookup_delete_ne; [done|]. intros <-. by apply Hnotin in Hold.
    + rewrite Heq. by destruct (side_index (state k)).
  - destruct (Hcells r c Hrc) as (p & kp & Hp & Hkp & Hside).
    exists p, kp. split; [done|]. split; [|done].
    rewrite lookup_delete_ne; [done|]. intros <-.
    destruct (Hcells _ _ (side_index_in_block (state k)))
      as (q & kq & Hq & Hkq & Hsideq).
    rewrite Hold in Hq. injection Hq as <-.
    rewrite Hkp in Hkq. injection Hkq as <-.
    apply Hne. rewrite <- Hside. by rewrite Hsideq.
Qed.

Lemma placed_render (w w' : World) (b : Block) :
  placed w b → render b w = Some (tt, w') → placed w' b.
Proof.
  intros [[Hs Hr] Hcells] Hrun.
  destruct (render_prints b) as [Hp _]. specialize (Hp w). rewrite Hrun in Hp.
  destruct Hp as (out & _ & _ & (Hs' & Hr' & Hc' & _)).
  split; [split; [congruence | by rewrite Hr']|].
  intros r c Hrc. rewrite Hc'. by apply Hcells.
Qed.

Lemma reachable_placed (w : World) (b : Block) :
  reachable not_held w b → placed w b.
Proof.
  induction 1 as [w0 w raw b Hw0 Hrun | w w' b side el p _ IH Hnew
                  | w w' b b' el _ IH Hnotin Hset | w w' b _ IH Hrun
                  | w b x y _ IH].
  - by eapply placed_Block_ctor.
  - by eapply placed_new.
  - by eapply placed_setContainer.
  - by eapply placed_render.
  - exact IH.
Qed.

(** C10, amended. On every block reached from [Block()] by calls of
    [setContainer] that each hand over a container the block does not
    already hold (with allocations, renderings and [setPosition] in
    between), every cell [(r, c)] of the grid holds a live container whose
    stored side [s] satisfies [side_to_index(s) == (r, c)]. *)
Theorem reachable_placement_consistent (w : World) (b : Block) :
  reachable not_held w b → placement_consistent w b.
Proof.
  intros Hreach. destruct (reachable_placed w b Hreach) as [[Hs Hr] Hcells].
  intros r c Hrc. destruct (Hcells r c Hrc) as (p & k & Hp & Hk & Hside).
  exists p, k. split; [done|]. split; [done|].
  unfold eval. rewrite side_to_index_ok by done. simpl. by rewrite Hside.
Qed.

Lemma reachable_placement_consistent_witness :
  placement_consistent installed_world installed_block.
Proof.
  apply reachable_placement_consistent.
  apply (reach_setContainer not_held sample_world installed_world
           sample_block installed_block sample_wall).
  - apply (reach_new not_held ctor_world sample_world sample_block
             NORTH WALL_ELEMENT sample_wall).
    + apply (reach_Block not_held initial_world ctor_world raw_block
               sample_block).
      * exact tables_ok_initial.
      * exact sample_ctor.
    + exact sample_new.
  - exact sample_wall_not_held.
  - exact sample_setContainer.
Defined.

(** C10 as stated fails: after [Block()], the call
    [setContainer(getElement(0, 1))] deletes the container it is about to
    install, so the cell [(0, 1)] is left pointing to no container at all. *)
Lemma held_container_not_placed :
  reachable any_container dangling_world dangling_block
  ∧ cell dangling_block 0 1 = Some held_north
  ∧ containers dangling_world !! held_north = None
  ∧ ¬ placement_consistent dangling_world dangling_block.
Proof.
  split; [|split; [|split]].
  - apply (reach_setContainer any_container ctor_world dangling_world
             sample_block dangling_block held_north).
    + apply (reach_Block any_container initial_world ctor_world raw_block
               sample_block); [exact tables_ok_initial | exact sample_ctor].
    + exact I.
    + exact sample_hand_back.
  - reflexivity.
  - reflexivity.
  - intros Hplaced.
    destruct (Hplaced 0 1) as (p & k & Hp & Hk & _).
    { unfold in_block, BLOCK_SIZE. lia. }
    vm_compute in Hp. injection Hp as <-.
    vm_compute in Hk. discriminate.
Qed.

(** ** The maze demo *)

Lemma tiles_intact_initial : tiles_intact initial_world.
Proof. by split. Qed.

Lemma new_tile_spec (s : Side) (w : World) :
  new_tile s w = new_ElementContainer s (tile_element s) w.
Proof. unfold new_tile, tile_element. by destruct (decide (s = CENTER)). Qed.

Lemma placed_live_not_held (w : World) (b : Block) (p : loc) :
  placed w b → containers w !! p = None → not_held b p.
Proof.
  intros [_ Hcells] Hp r c Hcell.
  assert (in_block r c) as Hrc by (apply (cell_is_Some b); eauto).
  destruct (Hcells r c Hrc) as (q & k & Hq & Hk & _). congruence.
Qed.

Lemma install_step (P : Side → Prop) (s : Side) (w : World) (b : Block) :
  tiled P w b →
  ∃ (b' : Block) (w' : World),
    (c <- new_tile s ;; setContainer b c) w = Some (b', w')
    ∧ tiled (λ x, P x ∨ x = s) w' b'
    ∧ elements w' = elements w
    ∧ cout w' = cout w.
Proof.
  intros [Hplaced Htiles].
  destruct (new_ElementContainer_spec s (tile_element s) w) as (p & Hp & Hnew).
  rewrite <- new_tile_spec in Hnew.
  rewrite (bind_Some _ _ _ _ _ Hnew).
  set (k := {| state := s; el_proxy := tile_element s |}) in *.
  set (w1 := set_containers (<[p := k]> (containers w)) w) in *.
  assert (placed w1 b) as Hplaced1.
  { eapply placed_new; [exact Hplaced|].
    rewrite <- new_tile_spec. exact Hnew. }
  assert (not_held b p) as Hnotheld
    by (apply (placed_live_not_held w); assumption).
  assert (containers w1 !! p = Some k) as Hk by apply lookup_insert_eq.
  destruct (proj2 Hplaced1 _ _ (side_index_in_block s))
    as (old & k_old & Hold & Hk_old & Hside_old).
  destruct (cell_assign_is_Some b _ _ p (side_index_in_block s)) as [b' Hb'].
  pose proof (setContainer_ok w1 b b' p old k k_old
                (proj1 (proj1 Hplaced1)) Hk Hold Hk_old Hb') as Hset.
  exists b'. eexists. split; [exact Hset|].
  split; [|done]. split.
  { eapply placed_setContainer; [exact Hplaced1 | exact Hnotheld | exact Hset]. }
  intros r c q kq Hq Hkq HP. simpl in Hkq.
  rewrite (cell_cell_assign _ _ _ _ r c _ Hb') in Hq.
  destruct (decide ((r, c) = (fst (side_index s), snd (side_index s))))
    as [Heq|Hne].
  - injection Hq as <-.
    rewrite lookup_delete_ne in Hkq
      by (intros <-; by apply Hnotheld in Hold).
    change (containers w1 !! p = Some kq) in Hkq.
    rewrite Hk in Hkq. by injection Hkq as <-.
  - assert (q ≠ old) as Hqold.
    { intros ->. by rewrite lookup_delete_eq in Hkq. }
    rewrite lookup_delete_ne in Hkq by congruence.
    assert (q ≠ p) as Hqp by (intros ->; by apply Hnotheld in Hq).
    change (<[p := k]> (containers w) !! q = Some kq) in Hkq.
    rewrite lookup_insert_ne in Hkq by congruence.
    destruct HP as [HP|Hs]; [by eapply Htiles|].
    exfalso. apply Hne.
    assert (in_block r c) as Hrc by (apply (cell_is_Some b); eauto).
    destruct (proj2 Hplaced r c Hrc) as (q' & kq' & Hq' & Hkq' & Hside').
    rewrite Hq in Hq'. injection Hq' as <-.
    rewrite Hkq in Hkq'. injection Hkq' as <-.
    rewrite <- Hs, Hside'. reflexivity.
Qed.

Lemma tiled_impl (P Q : Side → Prop) (w : World) (b : Block) :
  (∀ s : Side, Q s → P s) → tiled P w b → tiled Q w b.
Proof.
  intros HPQ [Hplaced Htiles]. split; [done|].
  intros r c p k Hp Hk HQ. eapply Htiles; eauto.
Qed.

Lemma install_spec (order : list Side) (P : Side → Prop) (w : World)
    (b : Block) :
  tiled P w b →
  ∃ (b' : Block) (w' : World),
    install order b w = Some (b', w')
    ∧ tiled (λ x, P x ∨ x ∈ order) w' b'
    ∧ elements w' = elements w
    ∧ cout w' = cout w.
Proof.
  revert P w b. induction order as [|s rest IH]; intros P w b Htiled; simpl.
  - exists b, w. split; [done|]. split; [|done].
    eapply tiled_impl; [|exact Htiled]. intros x [HP|Hin]; [done|].
    by apply elem_of_nil in Hin.
  - destruct (install_step P s w b Htiled) as (b1 & w1 & Hrun & Ht1 & He1 & Hc1).
    unfold bind in Hrun |- *.
    destruct (new_tile s w) as [[c wc]|]; [|done].
    rewrite Hrun.
    destruct (IH _ w1 b1 Ht1) as (b2 & w2 & Hrun2 & Ht2 & He2 & Hc2).
    exists b2, w2. split; [done|]. split; [|split; congruence].
    eapply tiled_impl; [|exact Ht2]. simpl. intros x [HP|Hin]; [by auto|].
    apply elem_of_cons in Hin as [->|Hin]; auto.
Qed.

(** [main] is the demo for [main_order]. *)
Lemma main_demo (raw : Block) (w : World) :
  main raw w = demo raw main_order w.
Proof.
  unfold main, demo, main_order, install, new_tile, bind. simpl.
  repeat (case_match; simplify_eq; try done).
Qed.

(** A block whose nine cells hold tiles prints [demo_text]. *)
Lemma tiled_render (w : World) (b : Block) :
  tiles_intact w → tiled (λ _, True) w b →
  ∃ w' : World, render b w = Some (tt, w') ∧ cout w' = cout w ++ demo_text.
Proof.
  intros [Hwall Hfloor] [[_ Hcells] Htiles].
  destruct (render_cells b w (λ r c, wall_glyph (index_side (r, c))))
    as (w' & Hrun & Hc & _).
  - intros r c Hrc. destruct (Hcells r c Hrc) as (p & k & Hp & Hk & Hside).
    exists p. split; [done|]. unfold glyph. rewrite Hk. simpl.
    rewrite (Htiles r c p k Hp Hk I).
    assert (index_side (r, c) = state k) as ->
      by (by rewrite <- Hside, side_index_side).
    unfold elem_glyph, tile_element.
    destruct (decide (state k = CENTER)) as [->|Hne].
    + by rewrite Hfloor.
    + rewrite Hwall. simpl. by rewrite WALL_REPRESENTATIONS_lookup.
  - exists w'. split; [done|]. rewrite Hc. reflexivity.
Qed.

(** C1, amended. A block constructed with [Block()] and then given wall
    containers on the eight perimeter sides and a floor container at
    [CENTER], in any order, renders as exactly three lines, each cell's
    glyph being followed by one space: ["■ ■ ■ "], ["■   ■ "] and
    ["■ ■ ■ "], every line ending in that space; [main] is the case of
    [main_order]. *)
Theorem decorated_block_render (raw : Block) (order : list Side) (w0 : World) :
  tables_ok w0 →
  tiles_intact w0 →
  (∀ s : Side, s ∈ order) →
  (∃ (b : Block) (w : World),
     demo raw order w0 = Some (b, w) ∧ cout w = cout w0 ++ demo_text)
  ∧ (∀ w : World, main raw w = demo raw main_order w)
  ∧ lines demo_text = ["■ ■ ■ "; "■   ■ "; "■ ■ ■ "].
Proof.
  intros Hw0 Htiles Hall. split; [|split; [|reflexivity]].
  - destruct (Block_ctor_spec raw w0 Hw0)
      as (b0 & w1 & Hctor & _ & _ & He1 & Hc1 & _).
    assert (tiled (λ _, False) w1 b0) as Ht0.
    { split; [by eapply placed_Block_ctor|]. by intros. }
    destruct (install_spec order _ w1 b0 Ht0)
      as (b & w2 & Hinst & Ht & He2 & Hc2).
    destruct (tiled_render w2 b) as (w & Hrun & Hc).
    { unfold tiles_intact. by rewrite He2, He1. }
    { eapply tiled_impl; [|exact Ht]. intros s _. right. apply Hall. }
    exists b, w. split; [|by rewrite Hc, Hc2, Hc1].
    unfold demo.
    rewrite (bind_Some _ _ _ _ _ Hctor), (bind_Some _ _ _ _ _ Hinst).
    by rewrite (bind_Some _ _ _ _ _ Hrun).
  - apply main_demo.
Qed.

Lemma main_order_complete (s : Side) : s ∈ main_order.
Proof. unfold main_order. destruct s; repeat constructor. Qed.

Lemma decorated_block_render_witness :
  ∃ (b : Block) (w : World),
    main raw_block initial_world = Some (b, w) ∧ cout w = demo_text.
Proof.
  destruct (decorated_block_render raw_block main_order initial_world
              tables_ok_initial tiles_intact_initial main_order_complete)
    as ((b & w & Hrun & Hc) & Hmain & _).
  exists b, w. split; [|exact Hc].
  rewrite Hmain. exact Hrun.
Defined.

(** C1 as stated fails on the rows themselves: each row [main] prints ends
    in the space that follows its last glyph, so the rows are not
    ["■ ■ ■"], ["■   ■"], ["■ ■ ■"]. *)
Lemma main_rows_end_in_space :
  ∃ out : string,
    cout <$> exec (main raw_block) initial_world = Some out
    ∧ lines out = ["■ ■ ■ "; "■   ■ "; "■ ■ ■ "]
    ∧ lines out ≠ ["■ ■ ■"; "■   ■"; "■ ■ ■"].
Proof.
  exists demo_text. split; [vm_compute; reflexivity|].
  split; [vm_compute; reflexivity|].
  intros Heq. vm_compute in Heq. discriminate Heq.
Qed.


(** * Further properties of the code *)

(** ** index_to_side outside the grid *)

(** X1. [index_to_side(x, y)] on coordinates that are not a key of
    [reverse_side_map] (no grid coordinate is such) does not fail: it
    answers [NORTH_WEST], the side of value 0, and records that answer in
    the table, on which the nine grid entries are untouched.  Asked again it
    answers the same and changes nothing; going back through
    [side_to_index] gives [(0, 0)], not [(x, y)].  Nothing but
    [reverse_side_map] changes. *)
Theorem index_to_side_outside (w : World) (x y : Z) :
  tables_ok w →
  reverse_side_map w !! (x, y) = None →
  ∃ w' : World,
    index_to_side x y w = Some (NORTH_WEST, w')
    ∧ reverse_side_map w' = <[(x, y) := NORTH_WEST]> (reverse_side_map w)
    ∧ tables_ok w'
    ∧ index_to_side x y w' = Some (NORTH_WEST, w')
    ∧ (s <- index_to_side x y ;; side_to_index s) w = Some ((0, 0), w')
    ∧ ¬ in_block x y
    ∧ side_map w' = side_map w
    ∧ elements w' = elements w
    ∧ containers w' = containers w
    ∧ cout w' = cout w.
Proof.
  intros [Hs Hr] Hnone.
  set (w' := set_reverse_side_map
               (<[(x, y) := NORTH_WEST]> (reverse_side_map w)) w).
  assert (index_to_side x y w = Some (NORTH_WEST, w')) as Hrun.
  { unfold index_to_side. by rewrite map_subscript_None by done. }
  assert (tables_ok w') as Hw'.
  { split; [done|]. simpl.
    apply insert_subseteq_r; [by eapply lookup_weaken_None|done]. }
  exists w'. split; [done|]. split; [done|]. split; [done|].
  split; [|split; [|split; [|done]]].
  - unfold index_to_side.
    rewrite (map_subscript_Some _ _ _ NORTH_WEST)
      by (simpl; apply lookup_insert_eq).
    by rewrite set_reverse_side_map_id.
  - rewrite (bind_Some _ _ _ _ _ Hrun).
    by rewrite side_to_index_ok by apply Hw'.
  - intros Hxy.
    pose proof (lookup_weaken _ _ _ _ (reverse_side_map_init_lookup x y Hxy) Hr).
    congruence.
Qed.

Lemma index_to_side_outside_witness :
  ∃ w' : World,
    index_to_side 3 0 initial_world = Some (NORTH_WEST, w')
    ∧ (s <- index_to_side 3 0 ;; side_to_index s) initial_world
      = Some ((0, 0), w').
Proof.
  destruct (index_to_side_outside initial_world 3 0 tables_ok_initial eq_refl)
    as (w' & Hrun & _ & _ & _ & Hback & _).
  exists w'. split; [exact Hrun | exact Hback].
Defined.

(** ** Element::repr: what a lookup does to the element *)

Lemma Element_repr_rerun (this : loc) (key : Side) (w w' : World)
    (v : string) :
  Element_repr this key w = Some (v, w') →
  Element_repr this key w' = Some (v, w').
Proof.
  intros Hrun. unfold Element_repr in Hrun.
  destruct (elements w !! this) as [e|] eqn:He; [|done].
  destruct (map_subscript "" (representations e) key) as [v0 m] eqn:Hm.
  injection Hrun as -> <-.
  apply (Element_repr_present _ _ _ {| representations := m |}).
  - simpl. apply lookup_insert_eq.
  - simpl. unfold map_subscript in Hm.
    destruct (representations e !! key) as [v1|] eqn:Hk; simplify_eq.
    + done.
    + apply lookup_insert_eq.
Qed.

(** X2. A lookup keeps every entry the element has, leaves it with an entry for
    the key asked (holding the string returned) and changes no other key;
    other elements, the containers, the tables and the output are as
    before. *)
Theorem Element_repr_only_adds (this : loc) (key : Side) (w w' : World)
    (e : Element) (v : string) :
  elements w !! this = Some e →
  Element_repr this key w = Some (v, w') →
  ∃ e' : Element,
    elements w' !! this = Some e'
    ∧ representations e ⊆ representations e'
    ∧ representations e' !! key = Some v
    ∧ (∀ k : Side, k ≠ key →
         representations e' !! k = representations e !! k)
    ∧ (∀ l : loc, l ≠ this → elements w' !! l = elements w !! l)
    ∧ containers w' = containers w
    ∧ side_map w' = side_map w
    ∧ reverse_side_map w' = reverse_side_map w
    ∧ cout w' = cout w.
Proof.
  intros He Hrun. unfold Element_repr in Hrun. rewrite He in Hrun.
  unfold map_subscript in Hrun.
  destruct (representations e !! key) as [v0|] eqn:Hk; simplify_eq; simpl.
  - exists {| representations := representations e |}.
    rewrite lookup_insert_eq. repeat split; try done.
    intros l Hl. by rewrite lookup_insert_ne.
  - exists {| representations := <[key := ""]> (representations e) |}.
    rewrite lookup_insert_eq. simpl. repeat split; try done.
    + by apply insert_subseteq.
    + apply lookup_insert_eq.
    + intros k Hne. by rewrite lookup_insert_ne.
    + intros l Hl. by rewrite lookup_insert_ne.
Qed.

Lemma Element_repr_only_adds_witness :
  ∃ (w' : World) (e' : Element),
    Element_repr NULL_ELEMENT CENTER initial_world = Some ("", w')
    ∧ elements w' !! NULL_ELEMENT = Some e'
    ∧ NULL_REPRESENTATIONS ⊆ representations e'.
Proof.
  destruct (Element_repr NULL_ELEMENT CENTER initial_world)
    as [[v w']|] eqn:Hrun; [|discriminate Hrun].
  destruct (Element_repr_only_adds NULL_ELEMENT CENTER initial_world w'
              (Element_ctor NULL_REPRESENTATIONS) v eq_refl Hrun)
    as (e' & He' & Hsub & _).
  exists w', e'. split; [|split; [exact He' | exact Hsub]].
  injection Hrun as <- <-. reflexivity.
Defined.

(** X3. A lookup repeated returns the same string and, the key now being an
    entry, changes nothing any more. *)
Theorem Element_repr_twice (this : loc) (key : Side) (w w' : World)
    (v : string) :
  Element_repr this key w = Some (v, w') →
  Element_repr this key w' = Some (v, w').
Proof.
  apply Element_repr_rerun.
Qed.

Lemma Element_repr_twice_witness :
  ∃ w' : World,
    Element_repr NULL_ELEMENT CENTER initial_world = Some ("", w')
    ∧ Element_repr NULL_ELEMENT CENTER w' = Some ("", w').
Proof.
  destruct (Element_repr NULL_ELEMENT CENTER initial_world)
    as [[v w']|] eqn:Hrun; [|discriminate Hrun].
  pose proof (Element_repr_twice _ _ _ _ _ Hrun) as Hagain.
  injection Hrun as <- <-. eexists. split; [reflexivity | exact Hagain].
Defined.

Section subscript_twice.
Context `{Countable K} {V : Type}.
Implicit Types (m : gmap K V) (k : K) (dflt : V).

(** Two subscripts leave the same map whichever comes first. *)
Lemma map_subscript_snd_commute dflt m k1 k2 :
  snd (map_subscript dflt (snd (map_subscript dflt m k1)) k2)
  = snd (map_subscript dflt (snd (map_subscript dflt m k2)) k1).
Proof.
  unfold map_subscript.
  destruct (m !! k1) as [v1|] eqn:H1, (m !! k2) as [v2|] eqn:H2; simpl.
  - by rewrite H1, H2.
  - rewrite H2. simpl.
    rewrite lookup_insert_ne by congruence. by rewrite H1.
  - rewrite H1. simpl.
    rewrite lookup_insert_ne by congruence. by rewrite H2.
  - destruct (decide (k1 = k2)) as [->|Hne].
    + by rewrite lookup_insert_eq.
    + rewrite !lookup_insert_ne by congruence. rewrite H1, H2. simpl.
      by apply insert_insert_ne.
Qed.

Lemma map_subscript_fst_after dflt m k1 k2 :
  fst (map_subscript dflt (snd (map_subscript dflt m k1)) k2)
  = fst (map_subscript dflt m k2).
Proof. by rewrite !map_subscript_fst, map_subscript_snd_default. Qed.
End subscript_twice.

(** [Element::repr] written with the two components of the subscript. *)
Lemma Element_repr_unfold (this : loc) (key : Side) (w : World) :
  Element_repr this key w
  = match elements w !! this with
    | Some e =>
        Some (fst (map_subscript "" (representations e) key),
              set_elements
                (<[this := {| representations :=
                                snd (map_subscript "" (representations e) key) |}]>
                   (elements w)) w)
    | None => None
    end.
Proof.
  unfold Element_repr. destruct (elements w !! this) as [e|]; [|done].
  by destruct (map_subscript "" (representations e) key).
Qed.

Lemma Element_repr_commute (l1 l2 : loc) (k1 k2 : Side) (w : World) :
  (a <- Element_repr l1 k1 ;; b <- Element_repr l2 k2 ;; ret (a, b)) w
  = (b <- Element_repr l2 k2 ;; a <- Element_repr l1 k1 ;; ret (a, b)) w.
Proof.
  unfold bind, ret. rewrite (Element_repr_unfold l1 k1 w),
    (Element_repr_unfold l2 k2 w).
  destruct (decide (l1 = l2)) as [<-|Hne].
  - destruct (elements w !! l1) as [e|] eqn:He; [|done].
    rewrite !Element_repr_unfold. simpl. rewrite !lookup_insert_eq. simpl.
    rewrite !map_subscript_fst_after, !insert_insert_eq.
    by rewrite map_subscript_snd_commute.
  - destruct (elements w !! l1) as [e1|] eqn:He1,
             (elements w !! l2) as [e2|] eqn:He2;
      rewrite ?Element_repr_unfold; simpl;
      rewrite ?lookup_insert_ne by congruence; rewrite ?He1, ?He2; try done.
    f_equal. f_equal. unfold set_elements. simpl. f_equal.
    by apply insert_insert_ne.
Qed.

Lemma ElementContainer_repr_unfold (p : loc) (w : World) :
  ElementContainer_repr p w
  = match containers w !! p with
    | Some k => Element_repr (el_proxy k) (state k) w
    | None => None
    end.
Proof.
  unfold ElementContainer_repr, bind, container_at.
  by destruct (containers w !! p).
Qed.

Lemma Element_repr_containers (l : loc) (key : Side) (w w' : World)
    (v : string) :
  Element_repr l key w = Some (v, w') → containers w' = containers w.
Proof.
  rewrite Element_repr_unfold.
  destruct (elements w !! l); [|done]. by intros [= <- <-].
Qed.

(** ** ElementContainer::repr: reading through containers *)

(** X4. Asking two containers for their representations gives the same two
    strings and the same final world whichever is asked first (and is
    undefined in one order exactly when it is in the other), although each
    call may write to a shared element. *)
Theorem container_reprs_commute (p q : loc) (w : World) :
  (a <- ElementContainer_repr p ;; b <- ElementContainer_repr q ;; ret (a, b)) w
  = (b <- ElementContainer_repr q ;; a <- ElementContainer_repr p ;; ret (a, b)) w.
Proof.
  pose proof (λ kp kq,
    Element_repr_commute (el_proxy kp) (el_proxy kq) (state kp) (state kq) w)
    as Hcomm.
  unfold bind in *. rewrite (ElementContainer_repr_unfold p w),
    (ElementContainer_repr_unfold q w).
  destruct (containers w !! p) as [kp|] eqn:Hp,
           (containers w !! q) as [kq|] eqn:Hq.
  - specialize (Hcomm kp kq).
    destruct (Element_repr (el_proxy kp) (state kp) w) as [[a w1]|] eqn:H1,
             (Element_repr (el_proxy kq) (state kq) w) as [[b w2]|] eqn:H2;
      rewrite ?ElementContainer_repr_unfold;
      rewrite ?(Element_repr_containers _ _ _ _ _ H1),
              ?(Element_repr_containers _ _ _ _ _ H2), ?Hp, ?Hq;
      done.
  - destruct (Element_repr (el_proxy kp) (state kp) w) as [[a w1]|] eqn:H1;
      [|done].
    rewrite ElementContainer_repr_unfold.
    by rewrite (Element_repr_containers _ _ _ _ _ H1), Hq.
  - destruct (Element_repr (el_proxy kq) (state kq) w) as [[b w2]|] eqn:H2;
      [|done].
    rewrite ElementContainer_repr_unfold.
    by rewrite (Element_repr_containers _ _ _ _ _ H2), Hp.
  - done.
Qed.

(** X5. Two live containers bound to the same live element and the same side
    show the same string when asked one after the other, and no element is
    created for either: the element heap keeps its addresses. *)
Theorem shared_element_same_repr (p q : loc) (w : World)
    (kp kq : ElementContainer) :
  containers w !! p = Some kp →
  containers w !! q = Some kq →
  el_proxy kp = el_proxy kq →
  state kp = state kq →
  is_Some (elements w !! el_proxy kp) →
  ∃ (v : string) (w' : World),
    (a <- ElementContainer_repr p ;; b <- ElementContainer_repr q ;; ret (a, b)) w
    = Some ((v, v), w')
    ∧ dom (elements w') = dom (elements w)
    ∧ containers w' = containers w.
Proof.
  intros Hp Hq Hel Hst [e He].
  unfold bind. rewrite (ElementContainer_repr_unfold p w), Hp.
  destruct (Element_repr (el_proxy kp) (state kp) w) as [[v w1]|] eqn:H1;
    [|by rewrite Element_repr_unfold, He in H1].
  pose proof (Element_repr_containers _ _ _ _ _ H1) as Hc1.
  rewrite ElementContainer_repr_unfold, Hc1, Hq, <- Hel, <- Hst.
  rewrite (Element_repr_rerun _ _ _ _ _ H1).
  exists v, w1. split; [done|]. split; [|done].
  rewrite Element_repr_unfold, He in H1. injection H1 as _ <-. simpl.
  rewrite dom_insert_L. apply elem_of_dom_2 in He.
  apply subseteq_union_1_L. by apply singleton_subseteq_l.
Qed.

Lemma shared_element_same_repr_witness :
  ∃ (v : string) (w' : World),
    (a <- ElementContainer_repr sample_wall ;;
     b <- ElementContainer_repr twin_wall ;; ret (a, b)) twin_world
    = Some ((v, v), w')
    ∧ sample_wall ≠ twin_wall.
Proof.
  destruct (shared_element_same_repr sample_wall twin_wall twin_world
              {| state := NORTH; el_proxy := WALL_ELEMENT |}
              {| state := NORTH; el_proxy := WALL_ELEMENT |}
              eq_refl eq_refl eq_refl eq_refl)
    as (v & w' & Hrun & _).
  - eexists. reflexivity.
  - exists v, w'. split; [exact Hrun | discriminate].
Defined.

(** ** ElementContainer::setSide and ElementContainer::setElement *)

Lemma setSide_ok (p : loc) (s : Side) (w : World) (k : ElementContainer) :
  containers w !! p = Some k →
  setSide p s w
  = Some (tt, set_containers
                (<[p := {| state := s; el_proxy := el_proxy k |}]>
                   (containers w)) w).
Proof.
  intros Hk. unfold setSide.
  by rewrite (bind_Some _ _ _ _ _ (container_at_ok _ _ _ Hk)).
Qed.

Lemma setElement_ok (p e : loc) (w : World) (k : ElementContainer) :
  containers w !! p = Some k →
  setElement p e w
  = Some (tt, set_containers
                (<[p := {| state := state k; el_proxy := e |}]>
                   (containers w)) w).
Proof.
  intros Hk. unfold setElement.
  by rewrite (bind_Some _ _ _ _ _ (container_at_ok _ _ _ Hk)).
Qed.

(** X6. On a live container, [setSide] changes the side and keeps the element,
    [setElement] changes the element and keeps the side; the two commute,
    and together they leave the container as one constructed with that side
    and element: [getSide] returns the side set and the container shows the
    new element's glyph for it.  No other container, no element, no table
    and no output is touched. *)
Theorem setSide_setElement (p e : loc) (s : Side) (w : World)
    (k : ElementContainer) :
  containers w !! p = Some k →
  ∃ w1 w2 w' : World,
    setSide p s w = Some (tt, w1)
    ∧ containers w1 !! p = Some {| state := s; el_proxy := el_proxy k |}
    ∧ setElement p e w = Some (tt, w2)
    ∧ containers w2 !! p = Some {| state := state k; el_proxy := e |}
    ∧ (setSide p s ;; setElement p e) w = Some (tt, w')
    ∧ (setElement p e ;; setSide p s) w = Some (tt, w')
    ∧ containers w' = <[p := {| state := s; el_proxy := e |}]> (containers w)
    ∧ getSide p w' = Some (s, w')
    ∧ glyph w' p = elem_glyph w e s
    ∧ (∀ q : loc, q ≠ p → containers w' !! q = containers w !! q)
    ∧ elements w' = elements w
    ∧ side_map w' = side_map w
    ∧ reverse_side_map w' = reverse_side_map w
    ∧ cout w' = cout w.
Proof.
  intros Hk.
  eexists _, _,
    (set_containers (<[p := {| state := s; el_proxy := e |}]> (containers w)) w).
  split; [by apply setSide_ok|]. split; [apply lookup_insert_eq|].
  split; [by apply setElement_ok|]. split; [apply lookup_insert_eq|].
  split; [|split].
  - rewrite (bind_Some _ _ _ _ _ (setSide_ok _ s _ _ Hk)).
    rewrite (setElement_ok _ e _ {| state := s; el_proxy := el_proxy k |})
      by apply lookup_insert_eq.
    unfold set_containers. simpl. by rewrite insert_insert_eq.
  - rewrite (bind_Some _ _ _ _ _ (setElement_ok _ e _ _ Hk)).
    rewrite (setSide_ok _ s _ {| state := state k; el_proxy := e |})
      by apply lookup_insert_eq.
    unfold set_containers. simpl. by rewrite insert_insert_eq.
  - split; [done|]. split.
    { rewrite (getSide_ok _ _ {| state := s; el_proxy := e |}); [done|].
      apply lookup_insert_eq. }
    split.
    { unfold glyph. simpl. by rewrite lookup_insert_eq. }
    split; [|done].
    intros q Hq. simpl. by rewrite lookup_insert_ne.
Qed.

Lemma setSide_setElement_witness :
  ∃ w' : World,
    (setSide sample_wall SOUTH ;; setElement sample_wall FLOOR_ELEMENT)
      sample_world = Some (tt, w')
    ∧ getSide sample_wall w' = Some (SOUTH, w')
    ∧ glyph w' sample_wall = Some " ".
Proof.
  destruct (setSide_setElement sample_wall FLOOR_ELEMENT SOUTH sample_world
              {| state := NORTH; el_proxy := WALL_ELEMENT |} eq_refl)
    as (w1 & w2 & w' & _ & _ & _ & _ & Hrun & _ & _ & Hside & Hglyph & _).
  exists w'. split; [exact Hrun|]. split; [exact Hside|].
  rewrite Hglyph. reflexivity.
Defined.

(** ** When Block::setContainer and Block::render are defined *)

(** X7. With the program's [side_map], [setContainer(el)] is defined exactly
    when [el] points to a live container and the cell for that container's
    side holds a live container: a dangling argument, or an occupant already
    deleted, is the only way the call goes wrong. *)
Theorem setContainer_defined_iff (w : World) (b : Block) (el : loc) :
  side_map w = side_map_init →
  is_Some (setContainer b el w)
  ↔ ∃ k : ElementContainer,
      containers w !! el = Some k
      ∧ occupant_live w b (fst (side_index (state k)))
                          (snd (side_index (state k))).
Proof.
  intros Hw. split.
  - intros [[b' w'] Hrun].
    destruct (setContainer_inv _ _ _ _ _ Hw Hrun)
      as (k & k_old & old & Hel & Hold & Hk_old & _).
    exists k. split; [done|]. by exists old, k_old.
  - intros (k & Hel & old & k_old & Hold & Hk_old).
    destruct (cell_assign_is_Some b _ _ el (side_index_in_block (state k)))
      as [b' Hb'].
    eexists. by eapply setContainer_ok.
Qed.

Lemma setContainer_defined_iff_witness :
  is_Some (setContainer sample_block sample_wall sample_world)
  ∧ ¬ is_Some (setContainer dangling_block sample_wall dangling_world).
Proof.
  split.
  - apply (setContainer_defined_iff sample_world sample_block sample_wall
             eq_refl).
    exists {| state := NORTH; el_proxy := WALL_ELEMENT |}.
    split; [reflexivity|]. eexists _, _. split; reflexivity.
  - intros Hdef.
    apply (setContainer_defined_iff dangling_world dangling_block sample_wall
             eq_refl) in Hdef.
    destruct Hdef as (k & Hk & _). vm_compute in Hk. discriminate Hk.
Defined.

Lemma each_text_Some {A : Type} (l : list A)
    (t : A → World → option string) (w : World) :
  is_Some (each_text l t w) ↔ ∀ x : A, x ∈ l → is_Some (t x w).
Proof.
  induction l as [|x l IH]; simpl.
  - split; [|by eauto]. intros _ x Hx. by apply elem_of_nil in Hx.
  - unfold seq_text. split.
    + intros [out Hout] y Hy.
      destruct (t x w) as [a|] eqn:Ha; [|done]. simpl in Hout.
      destruct (each_text l t w) as [c|] eqn:Hc; [|done].
      apply elem_of_cons in Hy as [->|Hy]; [by rewrite Ha; eauto|].
      apply IH; eauto.
    + intros Hall.
      destruct (Hall x) as [a ->]; [by left|]. simpl.
      destruct (proj2 IH) as [c Hc]; [intros y Hy; apply Hall; by right|].
      change (foldr (λ x acc, seq_text (t x) acc) (λ _, Some "") l w)
        with (each_text l t w).
      rewrite Hc. simpl. eauto.
Qed.

Lemma glyph_is_Some (w : World) (p : loc) :
  is_Some (glyph w p)
  ↔ ∃ (k : ElementContainer) (e : Element),
      containers w !! p = Some k ∧ elements w !! el_proxy k = Some e.
Proof.
  unfold glyph, elem_glyph. split.
  - intros [v Hv].
    destruct (containers w !! p) as [k|]; [|done]. simpl in Hv.
    destruct (elements w !! el_proxy k) as [e|] eqn:He; [|done]. eauto.
  - intros (k & e & -> & He). simpl. rewrite He. simpl. eauto.
Qed.

(** The cells of a block are the entries of the rows of its grid. *)
Lemma block_cells (b : Block) (P : loc → Prop) :
  (∀ row : array3 loc, row ∈ to_list3 (grid b) →
     ∀ p : loc, p ∈ to_list3 row → P p)
  ↔ (∀ (r c : Z) (p : loc), cell b r c = Some p → P p).
Proof.
  unfold to_list3, cell. split.
  - intros Hall r c p Hp.
    destruct (get3 (grid b) r) as [row|] eqn:Hrow; [|done]. simpl in Hp.
    apply (Hall row).
    + case_index r; simplify_eq; repeat constructor.
    + case_index c; simplify_eq; repeat constructor.
  - intros Hall row Hrow p Hp.
    repeat (apply elem_of_cons in Hrow; destruct Hrow as [->|Hrow]);
      [| | |by apply elem_of_nil in Hrow];
      (repeat (apply elem_of_cons in Hp; destruct Hp as [->|Hp]);
       [| | |by apply elem_of_nil in Hp]).
    + by apply (Hall 0 0).
    + by apply (Hall 0 1).
    + by apply (Hall 0 2).
    + by apply (Hall 1 0).
    + by apply (Hall 1 1).
    + by apply (Hall 1 2).
    + by apply (Hall 2 0).
    + by apply (Hall 2 1).
    + by apply (Hall 2 2).
Qed.

Lemma render_text_is_Some (b : Block) (w : World) :
  is_Some (render_text b w)
  ↔ ∀ (r c : Z) (p : loc), cell b r c = Some p → is_Some (glyph w p).
Proof.
  unfold render_text. rewrite each_text_Some, <- block_cells.
  apply forall_proper; intros row. apply forall_proper; intros Hrow.
  unfold row_text, seq_text.
  transitivity (is_Some (each_text (to_list3 row) cell_text w)).
  - destruct (each_text (to_list3 row) cell_text w); simpl;
      split; intros [? ?]; by eauto.
  - rewrite each_text_Some.
    apply forall_proper; intros p. apply forall_proper; intros Hp.
    unfold cell_text, seq_text. destruct (glyph w p); simpl;
      split; intros [? ?]; by eauto.
Qed.

(** X8. [render] is defined exactly when every cell of the block points to a
    live container bound to a live element; it then writes, row by row, the
    glyph each cell shows followed by a space, a newline after each row, and
    leaves the containers and the tables as they were. *)
Theorem render_defined_iff (b : Block) (w : World) :
  (is_Some (render b w)
   ↔ ∀ (r c : Z) (p : loc), cell b r c = Some p →
       ∃ (k : ElementContainer) (e : Element),
         containers w !! p = Some k ∧ elements w !! el_proxy k = Some e)
  ∧ (∀ w' : World, render b w = Some (tt, w') →
       ∃ g : Z → Z → string,
         cout w' = cout w ++ grid_string g
         ∧ (∀ r c : Z, in_block r c →
              ∃ p : loc, cell b r c = Some p ∧ glyph w p = Some (g r c))
         ∧ containers w' = containers w
         ∧ side_map w' = side_map w
         ∧ reverse_side_map w' = reverse_side_map w).
Proof.
  destruct (render_prints b) as [Hp _]. specialize (Hp w).
  pose proof (render_text_is_Some b w) as Htext.
  split.
  - transitivity (is_Some (render_text b w)).
    + destruct (render b w) as [[[] w']|].
      * destruct Hp as (out & -> & _). split; eauto.
      * rewrite Hp. split; intros [? ?]; done.
    + rewrite Htext. apply forall_proper; intros r.
      apply forall_proper; intros c. apply forall_proper; intros p.
      apply forall_proper; intros Hcell. apply glyph_is_Some.
  - intros w' Hrun. rewrite Hrun in Hp.
    destruct Hp as (out & Hout & Hc & Hequiv).
    assert (∀ r c : Z, in_block r c →
              ∃ p : loc, cell b r c = Some p
                ∧ glyph w p
                  = Some (default "" (q ← cell b r c; glyph w q))) as Hcells.
    { intros r c Hrc.
      destruct (proj2 (cell_is_Some b r c) Hrc) as [p Hcell].
      exists p. split; [done|]. rewrite Hcell. simpl.
      destruct (proj1 Htext (mk_is_Some _ _ Hout) r c p Hcell) as [v ->].
      done. }
    exists (λ r c, default "" (q ← cell b r c; glyph w q)).
    destruct (render_cells b w _ Hcells) as (w'' & Hrun' & Hc' & _).
    rewrite Hrun in Hrun'. injection Hrun' as <-.
    split; [done|]. split; [done|].
    destruct Hequiv as (Hs & Hr & Hcont & _). done.
Qed.

Lemma render_defined_iff_witness :
  ¬ is_Some (render dangling_block dangling_world)
  ∧ ∃ g : Z → Z → string,
      cout rendered_world = cout sample_world ++ grid_string g.
Proof.
  split.
  - intros Hdef.
    pose proof (proj1 (proj1 (render_defined_iff dangling_block dangling_world))
                  Hdef) as Hlive.
    destruct (Hlive 0 1 held_north eq_refl) as (k & e & Hk & _).
    vm_compute in Hk. discriminate Hk.
  - destruct (proj2 (render_defined_iff sample_block sample_world)
                rendered_world sample_render) as (g & Hg & _).
    exists g. exact Hg.
Defined.

(** ** Block::Block(): what is allocated *)

Lemma ctor_cell_step_alloc (w0 : World) (raw : Block) (i j : Z) (b : Block)
    (w : World) :
  tables_ok w0 → in_block i j →
  ctor_inv w0 raw (BLOCK_SIZE * i + j) b w
  ∧ ctor_alloc_inv w0 (BLOCK_SIZE * i + j) b w →
  ∃ (b' : Block) (w' : World),
    (mapped_side <- index_to_side i j ;;
     p <- new_NullContainer mapped_side None ;;
     lift (cell_assign b i j p)) w = Some (b', w')
    ∧ ctor_inv w0 raw (BLOCK_SIZE * i + j + 1) b' w'
    ∧ ctor_alloc_inv w0 (BLOCK_SIZE * i + j + 1) b' w'.
Proof.
  intros Hw0 Hij [Hinv [Hsize Hfresh]].
  destruct (ctor_cell_step w0 raw i j b w Hw0 Hij Hinv)
    as (b' & w' & Hrun & Hinv').
  exists b', w'. split; [done|]. split; [done|].
  destruct Hinv as (_ & Hr & _ & _ & Hsub & _).
  rewrite (bind_Some _ _ _ _ _
             (index_to_side_ok i j w ltac:(rewrite Hr; apply Hw0) Hij)) in Hrun.
  unfold new_NullContainer in Hrun. simpl in Hrun.
  destruct (new_ElementContainer_spec (index_side (i, j)) NULL_ELEMENT w)
    as (p & Hp & Hnew).
  rewrite (bind_Some _ _ _ _ _ Hnew) in Hrun.
  apply lift_inv in Hrun as [Hb' ->]. split.
  - simpl. rewrite map_size_insert_None by done. lia.
  - intros r c q Hrc Hlt Hq.
    rewrite (cell_cell_assign _ _ _ _ r c _ Hb') in Hq.
    destruct (decide ((r, c) = (i, j))) as [Heq|Hne].
    + injection Hq as <-. by eapply lookup_weaken_None.
    + apply (Hfresh r c q Hrc); [|done].
      unfold in_block, BLOCK_SIZE in *.
      destruct (decide (3 * r + c = 3 * i + j)) as [Heq|]; [|lia].
      exfalso. apply Hne. f_equal; lia.
Qed.

Lemma Block_ctor_alloc_spec (raw : Block) (w0 : World) :
  tables_ok w0 →
  ∃ (b : Block) (w : World),
    Block_ctor raw w0 = Some (b, w)
    ∧ ctor_inv w0 raw (BLOCK_SIZE * BLOCK_SIZE) b w
    ∧ ctor_alloc_inv w0 (BLOCK_SIZE * BLOCK_SIZE) b w.
Proof.
  intros Hw0. unfold Block_ctor.
  change (Z.to_nat BLOCK_SIZE) with 3%nat.
  apply (for_range_rule
           (λ i b w, ctor_inv w0 raw (BLOCK_SIZE * i) b w
                     ∧ ctor_alloc_inv w0 (BLOCK_SIZE * i) b w)).
  - split.
    + repeat split; try done.
      intros r c [Hr Hc]. unfold BLOCK_SIZE in *. lia.
    + split; [simpl; lia|].
      intros r c p [Hr Hc]. unfold BLOCK_SIZE in *. lia.
  - intros i b w Hi Hinv.
    replace (BLOCK_SIZE * (i + 1)) with (BLOCK_SIZE * i + Z.of_nat 3)
      by (unfold BLOCK_SIZE; lia).
    apply (for_range_rule
             (λ j b w, ctor_inv w0 raw (BLOCK_SIZE * i + j) b w
                       ∧ ctor_alloc_inv w0 (BLOCK_SIZE * i + j) b w)).
    + by rewrite Z.add_0_r.
    + intros j b1 w1 Hj Hinv1.
      rewrite Z.add_assoc. apply ctor_cell_step_alloc; [done| |done].
      unfold in_block, BLOCK_SIZE. lia.
Qed.

(** X9. In a world with the program's tables [Block()] is always defined.  It
    allocates nine containers: nine more are live than before, each cell
    points to a different one, none at an address that was live, each a
    [NullContainer] for the side of its cell; the containers that were
    live, the elements, the tables and the output are untouched.  It does
    not initialise the position: [getPosition] on the new block returns
    whatever the storage held. *)
Theorem Block_ctor_allocates (raw : Block) (w0 : World) :
  tables_ok w0 →
  ∃ (b : Block) (w : World),
    Block_ctor raw w0 = Some (b, w)
    ∧ size (containers w) = (size (containers w0) + 9)%nat
    ∧ containers w0 ⊆ containers w
    ∧ (∀ (r c : Z) (p : loc), cell b r c = Some p →
         containers w0 !! p = None
         ∧ containers w !! p
           = Some {| state := index_side (r, c); el_proxy := NULL_ELEMENT |})
    ∧ (∀ (r c r' c' : Z) (p : loc),
         cell b r c = Some p → cell b r' c' = Some p → (r, c) = (r', c'))
    ∧ getPosition b = getPosition raw
    ∧ elements w = elements w0
    ∧ cout w = cout w0
    ∧ side_map w = side_map w0
    ∧ reverse_side_map w = reverse_side_map w0.
Proof.
  intros Hw0.
  destruct (Block_ctor_alloc_spec raw w0 Hw0)
    as (b & w & Hrun & (Hs & Hr & He & Hc & Hsub & Hpos & Hcells)
        & (Hsize & Hfresh)).
  assert (∀ (r c : Z) (p : loc), cell b r c = Some p →
            containers w0 !! p = None
            ∧ containers w !! p
              = Some {| state := index_side (r, c); el_proxy := NULL_ELEMENT |})
    as Hcell.
  { intros r c p Hp.
    assert (in_block r c) as Hrc by (apply (cell_is_Some b); eauto).
    assert (BLOCK_SIZE * r + c < BLOCK_SIZE * BLOCK_SIZE) as Hlt
      by (unfold in_block, BLOCK_SIZE in *; lia).
    split; [by eapply Hfresh|].
    destruct (Hcells r c Hrc Hlt) as (q & Hq & Hk). congruence. }
  exists b, w. split; [done|]. split; [unfold BLOCK_SIZE in Hsize; lia|].
  split; [done|]. split; [done|]. split; [|done].
  intros r c r' c' p Hp Hp'.
  destruct (Hcell r c p Hp) as [_ Hk], (Hcell r' c' p Hp') as [_ Hk'].
  rewrite Hk in Hk'. injection Hk' as Hside.
  rewrite <- (index_side_index r c), <- (index_side_index r' c'), Hside;
    [done| |]; apply (cell_is_Some b); eauto.
Qed.

Lemma Block_ctor_allocates_witness :
  ∃ (b : Block) (w : World),
    Block_ctor raw_block initial_world = Some (b, w)
    ∧ size (containers w) = 9%nat
    ∧ getPosition b = (-1, 7).
Proof.
  destruct (Block_ctor_allocates raw_block initial_world tables_ok_initial)
    as (b & w & Hrun & Hsize & _ & _ & _ & Hpos & _).
  exists b, w. split; [exact Hrun|]. split; [exact Hsize | exact Hpos].
Defined.

(** ** Blocks a client has reached *)

Lemma installed_reachable : reachable not_held installed_world installed_block.
Proof.
  apply (reach_setContainer not_held sample_world installed_world
           sample_block installed_block sample_wall).
  - apply (reach_new not_held ctor_world sample_world sample_block
             NORTH WALL_ELEMENT sample_wall).
    + apply (reach_Block not_held initial_world ctor_world raw_block
               sample_block); [exact tables_ok_initial | exact sample_ctor].
    + exact sample_new.
  - exact sample_wall_not_held.
  - exact sample_setContainer.
Qed.

Lemma placed_cells_distinct (w : World) (b : Block) (r c r' c' : Z) (p : loc) :
  placed w b →
  cell b r c = Some p → cell b r' c' = Some p → (r, c) = (r', c').
Proof.
  intros [_ Hcells] Hp Hp'.
  assert (in_block r c) as Hrc by (apply (cell_is_Some b); eauto).
  assert (in_block r' c') as Hrc' by (apply (cell_is_Some b); eauto).
  destruct (Hcells r c Hrc) as (q & k & Hq & Hk & Hside).
  destruct (Hcells r' c' Hrc') as (q' & k' & Hq' & Hk' & Hside').
  congruence.
Qed.

(** X10. As long as the client hands over only containers the block does not
    hold, no container is held by two cells of the block. *)
Theorem reachable_cells_distinct (w : World) (b : Block) (r c r' c' : Z)
    (p : loc) :
  reachable not_held w b →
  (r, c) ≠ (r', c') →
  cell b r c = Some p →
  cell b r' c' ≠ Some p.
Proof.
  intros Hreach Hne Hp Hp'. apply Hne.
  apply (placed_cells_distinct w b r c r' c' p); [|done|done].
  by apply reachable_placed.
Qed.

Lemma reachable_cells_distinct_witness :
  cell installed_block 2 2 ≠ Some sample_wall.
Proof.
  apply (reachable_cells_distinct installed_world installed_block 0 1 2 2
           sample_wall installed_reachable); [discriminate | reflexivity].
Defined.

(** X11. Constructing a container and handing it to a block so reached is always
    defined: the new container sits in the cell of its side, the block is
    reached again, the container it replaces is no longer live, and as many
    containers are live afterwards as before, so nothing piles up.  The
    elements, the tables and the output are untouched. *)
Theorem install_fresh_no_leak (w : World) (b : Block) (s : Side) (e : loc) :
  reachable not_held w b →
  ∃ (p old : loc) (b' : Block) (w' : World),
    (c <- new_ElementContainer s e ;; b' <- setContainer b c ;; ret (c, b')) w
    = Some ((p, b'), w')
    ∧ cell b (fst (side_index s)) (snd (side_index s)) = Some old
    ∧ cell b' (fst (side_index s)) (snd (side_index s)) = Some p
    ∧ containers w' !! p = Some {| state := s; el_proxy := e |}
    ∧ containers w' !! old = None
    ∧ size (containers w') = size (containers w)
    ∧ reachable not_held w' b'
    ∧ elements w' = elements w
    ∧ side_map w' = side_map w
    ∧ reverse_side_map w' = reverse_side_map w
    ∧ cout w' = cout w.
Proof.
  intros Hreach. pose proof (reachable_placed _ _ Hreach) as Hplaced.
  destruct (new_ElementContainer_spec s e w) as (p & Hp & Hnew).
  set (k := {| state := s; el_proxy := e |}) in *.
  set (w1 := set_containers (<[p := k]> (containers w)) w) in *.
  assert (placed w1 b) as Hplaced1 by by eapply placed_new.
  assert (not_held b p) as Hnotheld
    by (apply (placed_live_not_held w); assumption).
  assert (containers w1 !! p = Some k) as Hk by apply lookup_insert_eq.
  destruct (proj2 Hplaced1 _ _ (side_index_in_block s))
    as (old & k_old & Hold & Hk_old & _).
  destruct (cell_assign_is_Some b _ _ p (side_index_in_block s)) as [b' Hb'].
  pose proof (setContainer_ok w1 b b' p old k k_old
                (proj1 (proj1 Hplaced1)) Hk Hold Hk_old Hb') as Hset.
  assert (old ≠ p) as Hne by (intros ->; by apply Hnotheld in Hold).
  exists p, old, b', (set_containers (delete old (containers w1)) w1).
  split.
  { rewrite (bind_Some _ _ _ _ _ Hnew). by rewrite (bind_Some _ _ _ _ _ Hset). }
  split; [done|]. split.
  { rewrite (cell_cell_assign _ _ _ _ _ _ _ Hb'). by rewrite decide_True. }
  split.
  { simpl. by rewrite lookup_delete_ne. }
  split; [simpl; apply lookup_delete_eq|].
  split.
  { simpl. rewrite map_size_delete_Some by eauto.
    change (containers w1) with (<[p := k]> (containers w)).
    by rewrite map_size_insert_None. }
  split; [|done].
  eapply reach_setContainer; [|exact Hnotheld|exact Hset].
  eapply reach_new; [exact Hreach|exact Hnew].
Qed.

Lemma install_fresh_no_leak_witness :
  ∃ (p old : loc) (b' : Block) (w' : World),
    (c <- new_ElementContainer SOUTH FLOOR_ELEMENT ;;
     b' <- setContainer installed_block c ;; ret (c, b')) installed_world
    = Some ((p, b'), w')
    ∧ size (containers w') = size (containers installed_world).
Proof.
  destruct (install_fresh_no_leak installed_world installed_block SOUTH
              FLOOR_ELEMENT installed_reachable)
    as (p & old & b' & w' & Hrun & _ & _ & _ & _ & Hsize & _).
  exists p, old, b', w'. split; [exact Hrun | exact Hsize].
Defined.

Lemma render_is_Some_live (b : Block) (w : World) (r c : Z) (p : loc) :
  is_Some (render b w) → cell b r c = Some p → is_Some (containers w !! p).
Proof.
  intros [[[] w'] Hrun] Hcell.
  destruct (render_prints b) as [Hp _]. specialize (Hp w). rewrite Hrun in Hp.
  destruct Hp as (out & Hout & _).
  pose proof (proj1 (render_text_is_Some b w) (mk_is_Some _ _ Hout) r c p Hcell)
    as Hglyph.
  apply glyph_is_Some in Hglyph as (k & e & Hk & _). eauto.
Qed.

(** ** Misusing a block *)

(** X12. Handing a block so reached the container one of its own cells holds,
    [setContainer(getElement(r, c))], is a defined call on every cell of the
    grid, and it always leaves that cell dangling: the grid holds the same
    nine pointers as before, but the container behind the cell has been
    deleted.  From then on [render] is undefined and the placement of the
    block is lost. *)
Theorem hand_back_dangles (w : World) (b : Block) (r c : Z) :
  reachable not_held w b →
  in_block r c →
  ∃ (p : loc) (b' : Block) (w' : World),
    (el <- getElement b r c ;; setContainer b el) w = Some (b', w')
    ∧ cell b r c = Some p
    ∧ (∀ r' c' : Z, cell b' r' c' = cell b r' c')
    ∧ containers w' = delete p (containers w)
    ∧ containers w' !! p = None
    ∧ render b' w' = None
    ∧ ¬ placement_consistent w' b'.
Proof.
  intros Hreach Hrc. pose proof (reachable_placed _ _ Hreach) as [Hw Hcells].
  destruct (Hcells r c Hrc) as (p & k & Hp & Hk & Hside).
  assert (cell b (fst (side_index (state k))) (snd (side_index (state k)))
          = Some p) as Hold by by rewrite Hside.
  destruct (cell_assign_is_Some b _ _ p (side_index_in_block (state k)))
    as [b' Hb'].
  pose proof (setContainer_ok w b b' p p k k (proj1 Hw) Hk Hold Hk Hb') as Hset.
  assert (∀ r' c' : Z, cell b' r' c' = cell b r' c') as Hsame.
  { intros r' c'. rewrite (cell_cell_assign _ _ _ _ r' c' _ Hb').
    destruct (decide _) as [[= -> ->]|]; [by rewrite Hold|done]. }
  exists p, b', (set_containers (delete p (containers w)) w).
  split.
  { unfold getElement. rewrite (bind_Some _ _ _ _ _ (lift_Some _ _ _ Hp)).
    exact Hset. }
  split; [done|]. split; [done|]. split; [done|].
  split; [simpl; apply lookup_delete_eq|].
  split.
  - destruct (render b' (set_containers (delete p (containers w)) w))
      as [[[] w'']|] eqn:Hrun; [|done].
    destruct (render_is_Some_live b' _ r c p (mk_is_Some _ _ Hrun))
      as [k' Hk']; [by rewrite Hsame|].
    simpl in Hk'. by rewrite lookup_delete_eq in Hk'.
  - intros Hplaced. destruct (Hplaced r c Hrc) as (q & kq & Hq & Hkq & _).
    rewrite Hsame, Hp in Hq. injection Hq as <-.
    simpl in Hkq. by rewrite lookup_delete_eq in Hkq.
Qed.

Lemma hand_back_dangles_witness :
  ∃ (p : loc) (b' : Block) (w' : World),
    (el <- getElement installed_block 2 2 ;; setContainer installed_block el)
      installed_world = Some (b', w')
    ∧ containers w' !! p = None
    ∧ render b' w' = None.
Proof.
  destruct (hand_back_dangles installed_world installed_block 2 2
              installed_reachable)
    as (p & b' & w' & Hrun & _ & _ & _ & Hgone & Hrender & _).
  - unfold in_block, BLOCK_SIZE. lia.
  - exists p, b', w'. split; [exact Hrun|]. split; [exact Hgone|exact Hrender].
Defined.

(** X13. [setSide] on a container a block so reached holds changes what the cell
    shows, not where the container sits: the call is defined, the block
    stays placement-consistent exactly when the new side is the side of the
    container's cell, and the cell then shows its element's glyph for the
    new side. *)
Theorem setSide_held_placement (w : World) (b : Block) (r c : Z) (p : loc)
    (s : Side) :
  reachable not_held w b →
  cell b r c = Some p →
  ∃ (k : ElementContainer) (w' : World),
    containers w !! p = Some k
    ∧ setSide p s w = Some (tt, w')
    ∧ (placement_consistent w' b ↔ side_index s = (r, c))
    ∧ (side_index s = (r, c) ↔ s = state k)
    ∧ glyph w' p = elem_glyph w (el_proxy k) s.
Proof.
  intros Hreach Hp. pose proof (reachable_placed _ _ Hreach) as Hplaced.
  pose proof Hplaced as [[Hs Hr] Hcells].
  assert (in_block r c) as Hrc by (apply (cell_is_Some b); eauto).
  destruct (Hcells r c Hrc) as (q & k & Hq & Hk & Hside).
  rewrite Hp in Hq. injection Hq as <-.
  exists k. eexists. split; [done|]. split; [by apply setSide_ok|].
  split; [|split].
  - split.
    + intros Hpc. destruct (Hpc r c Hrc) as (q & kq & Hq & Hkq & Hidx).
      rewrite Hp in Hq. injection Hq as <-.
      simpl in Hkq. rewrite lookup_insert_eq in Hkq. injection Hkq as <-.
      unfold eval in Hidx. rewrite side_to_index_ok in Hidx by done.
      simpl in Hidx. by injection Hidx.
    + intros Hnew r' c' Hrc'.
      destruct (Hcells r' c' Hrc') as (q & kq & Hq & Hkq & Hidx).
      destruct (decide (q = p)) as [->|Hne].
      * pose proof (placed_cells_distinct _ _ _ _ _ _ _ Hplaced Hp Hq) as [= <- <-].
        eexists p, _. split; [done|]. split; [simpl; apply lookup_insert_eq|].
        unfold eval. rewrite side_to_index_ok by done. simpl. by rewrite Hnew.
      * exists q, kq. split; [done|].
        split; [simpl; by rewrite lookup_insert_ne|].
        unfold eval. rewrite side_to_index_ok by done. simpl. by rewrite Hidx.
  - split.
    + intros Hnew. rewrite <- (side_index_side s), Hnew, <- Hside.
      by rewrite side_index_side.
    + by intros ->.
  - unfold glyph. simpl. by rewrite lookup_insert_eq.
Qed.

Lemma setSide_held_placement_witness :
  ∃ w' : World,
    setSide sample_wall SOUTH installed_world = Some (tt, w')
    ∧ ¬ placement_consistent w' installed_block.
Proof.
  destruct (setSide_held_placement installed_world installed_block 0 1
              sample_wall SOUTH installed_reachable eq_refl)
    as (k & w' & _ & Hrun & Hiff & _).
  exists w'. split; [exact Hrun|].
  intros Hpc. apply Hiff in Hpc. discriminate Hpc.
Defined.

(** ** The flyweight demo *)


















(** ** The order of the sides *)



(** ** Constructing containers *)

